(** * Transfer-watch bot: the gameweek-aware reconciliation of [bot.py]

    A shallow embedding of [src/bot.py]: the state handling
    ([escape_markdown], [load_state], [save_state],
    [check_for_new_transfers]), its two collaborators ([login_to_fix],
    [scrape_target_transfers]) and the Telegram handlers, with the
    properties of its specification.

    Conventions of the embedding.
    - A Python [str] is a [string] holding its UTF-8 bytes.  Every
      delimiter the program looks at is ASCII, so working on bytes and
      working on code points agree; where Python iterates the characters
      of a string ([py_chars]) the bytes are grouped back into code points.
    - A parsed JSON document is a [json] tree; a number with a fraction
      or an exponent is a binary float, kept as the [spec_float] of the
      Standard Library.
    - A scraped transfer, the two-element list [[p_out, p_in]] of the
      source, is a pair of strings.
    - The file [transfers.json], and how a write to it ends, form the
      [world] threaded through every call; Python exceptions are the
      [Raised] results.
    - The interpreter is CPython 3.11 in its default configuration
      ([int] refuses texts of more than 4300 digits), with the Unicode
      database of that version; the calls of [logger] are left out. *)

From Stdlib Require Import Ascii String DecimalString DecimalPos DecimalZ SpecFloat.
From stdpp Require Import base gmap strings list.

Open Scope string_scope.
Open Scope Z_scope.

Set Warnings "-clear-no-such-hyp".

(** ** Python strings *)

Module PyStr.

(** The character [\n] of a Python literal. *)
Definition nl : string := String (ascii_of_nat 10) "".

(** [sep.join(parts)]. *)
Fixpoint join (sep : string) (parts : list string) : string :=
  match parts with
  | [] => ""
  | [p] => p
  | p :: rest => p +:+ sep +:+ join sep rest
  end.

(** [''.join(parts)]. *)
Fixpoint concat_str (parts : list string) : string :=
  match parts with
  | [] => ""
  | p :: rest => p +:+ concat_str rest
  end.

(** [char in s] for a one-character [char]. *)
Fixpoint char_in (char : ascii) (s : string) : bool :=
  match s with
  | "" => false
  | String c s' => Ascii.eqb char c || char_in char s'
  end.

(** [f"{n}"] for an [int]. *)
Definition str_of_int (n : Z) : string := NilZero.string_of_int (Z.to_int n).

Definition is_continuation (c : ascii) : bool :=
  let n := N_of_ascii c in ((128 <=? n) && (n <? 192))%N.

(** The characters of a [str], as one-character strings: every UTF-8
    lead byte together with the continuation bytes that follow it. *)
Fixpoint py_chars (s : string) : list string :=
  match s with
  | "" => []
  | String c s' =>
      match py_chars s' with
      | String d t :: rest =>
          if is_continuation d then String c (String d t) :: rest
          else String c "" :: String d t :: rest
      | rest => String c "" :: rest
      end
  end.

(** The payload of [n] continuation bytes, appended to [acc]. *)
Fixpoint continuation_bits (n : nat) (acc : N) (bytes : string) : option N :=
  match n, bytes with
  | O, "" => Some acc
  | S n', String c rest =>
      if is_continuation c
      then continuation_bits n' (acc * 64 + (N_of_ascii c - 128))%N rest
      else None
  | _, _ => None
  end.

(** The code point of a one-character string ([ord]); [None] when the
    bytes are not the UTF-8 form of one character. *)
Definition code_point (char : string) : option N :=
  match char with
  | "" => None
  | String c rest =>
      let b := N_of_ascii c in
      if (b <? 128)%N then continuation_bits 0 b rest
      else if (b <? 192)%N then None
      else if (b <? 224)%N then continuation_bits 1 (b - 192)%N rest
      else if (b <? 240)%N then continuation_bits 2 (b - 224)%N rest
      else continuation_bits 3 (b - 240)%N rest
  end.

(** The Unicode database of the interpreter (Unicode 14.0, as in CPython
    3.11): the code points of the digits zero of every run of ten
    decimal digits (category [Nd]), and the code points for which
    [str.isspace] holds. *)
Definition decimal_zeros : list N :=
  [48; 1632; 1776; 1984; 2406; 2534; 2662; 2790; 2918; 3046; 3174; 3302;
   3430; 3558; 3664; 3792; 3872; 4160; 4240; 6112; 6160; 6470; 6608; 6784;
   6800; 6992; 7088; 7232; 7248; 42528; 43216; 43264; 43472; 43504; 43600;
   44016; 65296; 66720; 68912; 69734; 69872; 69942; 70096; 70384; 70736;
   70864; 71248; 71360; 71472; 71904; 72016; 72784; 73040; 73120; 92768;
   92864; 93008; 120782; 120792; 120802; 120812; 120822; 123200; 123632;
   125264; 130032]%N.

Definition unicode_spaces : list N :=
  [9; 10; 11; 12; 13; 28; 29; 30; 31; 32; 133; 160; 5760; 8192; 8193; 8194;
   8195; 8196; 8197; 8198; 8199; 8200; 8201; 8202; 8232; 8233; 8239; 8287;
   12288]%N.

(** [Py_UNICODE_TODECIMAL]: the value of a decimal digit of any script. *)
Definition unicode_decimal (cp : N) : option Z :=
  match List.find (fun zero => (zero <=? cp) && (cp <? zero + 10))%N decimal_zeros with
  | Some zero => Some (Z.of_N (cp - zero))
  | None => None
  end.

(** [Py_UNICODE_ISSPACE] *)
Definition unicode_space (cp : N) : bool := existsb (N.eqb cp) unicode_spaces.

(** What the pattern [\d] matches: one character that is a decimal
    digit. *)
Definition is_decimal_char (char : string) : bool :=
  match code_point char with
  | Some cp => match unicode_decimal cp with Some _ => true | None => false end
  | None => false
  end.

(** The value of an ASCII digit. *)
Definition digit_value (c : ascii) : option Z :=
  let n := Z.of_N (N_of_ascii c) in
  if (48 <=? n) && (n <=? 57) then Some (n - 48) else None.

(** [Py_ISSPACE]: blank, tab, line feed, vertical tab, form feed,
    carriage return. *)
Definition is_space (c : ascii) : bool :=
  let n := N_of_ascii c in (((9 <=? n) && (n <=? 13)) || (n =? 32))%N.

(** The first step of [int(s)]: characters below 127 are kept, other
    blanks become a space and other decimal digits their ASCII digit;
    the text is cut with a [?] at the first character that is neither. *)
Fixpoint decimal_and_space_to_ascii (chars : list string) : string :=
  match chars with
  | [] => ""
  | char :: rest =>
      match code_point char with
      | None => "?"
      | Some cp =>
          if (cp <? 127)%N
          then String (ascii_of_N cp) (decimal_and_space_to_ascii rest)
          else if unicode_space cp
          then String " " (decimal_and_space_to_ascii rest)
          else
            match unicode_decimal cp with
            | Some d =>
                String (ascii_of_N (48 + Z.to_N d)) (decimal_and_space_to_ascii rest)
            | None => "?"
            end
      end
  end.

Fixpoint skip_spaces (s : string) : string :=
  match s with
  | String c rest => if is_space c then skip_spaces rest else s
  | "" => ""
  end.

(** The digits at the head of [s], single underscores between digits
    allowed, and what follows them; [None] for a doubled or a trailing
    underscore. *)
Fixpoint scan_digits (after_underscore : bool) (s : string)
  : option (list Z * string) :=
  match s with
  | "" => if after_underscore then None else Some ([], "")
  | String c rest =>
      if Ascii.eqb c "_"
      then if after_underscore then None else scan_digits true rest
      else
        match digit_value c with
        | Some d =>
            match scan_digits false rest with
            | Some (digits, rest') => Some (d :: digits, rest')
            | None => None
            end
        | None => if after_underscore then None else Some ([], s)
        end
  end.

(** [sys.int_info.default_max_str_digits] *)
Definition max_str_digits : Z := 4300.

Definition starts_with (c : ascii) (s : string) : bool :=
  match s with
  | String c' _ => Ascii.eqb c' c
  | "" => false
  end.

Definition str_tail (s : string) : string :=
  match s with
  | String _ rest => rest
  | "" => ""
  end.

(** [PyLong_FromString] in base ten: blanks, an optional sign, digits
    with single underscores between them, blanks. *)
Definition long_from_string (s : string) : option Z :=
  let s := skip_spaces s in
  let negative := starts_with "-" s in
  let s := if starts_with "+" s || negative then str_tail s else s in
  if starts_with "_" s then None
  else
    match scan_digits false s with
    | None | Some ([], _) => None
    | Some (digits, rest) =>
        if max_str_digits <? Z.of_nat (length digits) then None
        else
          match skip_spaces rest with
          | "" =>
              let n := fold_left (fun acc d => 10 * acc + d) digits 0 in
              Some (if negative then - n else n)
          | _ => None
          end
    end.

(** [int(s)]; [None] stands for [ValueError]. *)
Definition int_of_str (s : string) : option Z :=
  long_from_string (decimal_and_space_to_ascii (py_chars s)).

End PyStr.
Export PyStr.

(** ** [escape_markdown] *)

Definition escape_chars : string := "_*[]()~`>#+-=|{}.!".

(** [''.join(f'\\{char}' if char in escape_chars else char for char in text)] *)
Definition escape_markdown (text : string) : string :=
  concat_str
    (map (fun char : ascii =>
            if char_in char escape_chars
            then String "\" (String char "")
            else String char "")
         (list_ascii_of_string text)).

(** ** JSON documents and the Python values they load to *)

#[warnings="-register-all"]
Inductive json : Type :=
  | JNull
  | JBool (b : bool)
  | JInt (n : Z)
  | JFloat (f : spec_float)
  | JStr (s : string)
  | JArr (items : list json)
  | JObj (members : list (string * json)).

(** A Python [dict] loaded from a JSON object: its items in insertion
    order, the keys being distinct. *)
Fixpoint dict_lookup (key : string) (members : list (string * json)) : option json :=
  match members with
  | [] => None
  | (k, v) :: rest => if String.eqb key k then Some v else dict_lookup key rest
  end.

(** [isinstance(data, dict)] *)
Definition is_dict (data : json) : bool :=
  match data with JObj _ => true | _ => false end.

(** [key in data] for a [dict]. *)
Definition has_key (key : string) (data : json) : bool :=
  match data with
  | JObj members => bool_decide (is_Some (dict_lookup key members))
  | _ => false
  end.

(** [data.get(key, default)] *)
Definition dict_get (key : string) (data : json) (dflt : json) : json :=
  match data with
  | JObj members => default dflt (dict_lookup key members)
  | _ => dflt
  end.

(** Python exceptions that can leave the functions below. *)
Inductive exn : Type :=
  | OSError
  | TypeError
  | ValueError
  | UnicodeDecodeError
  | RecursionError
  | CookieConflictError.

Inductive result (A : Type) : Type :=
  | Returned (a : A)
  | Raised (e : exn).
Arguments Returned {A} a.
Arguments Raised {A} e.

#[global] Instance result_ret : MRet result := fun A a => Returned a.
#[global] Instance result_bind : MBind result := fun A B f r =>
  match r with
  | Returned a => f a
  | Raised e => Raised e
  end.

Definition or_raise {A} (e : exn) (o : option A) : result A :=
  match o with Some a => Returned a | None => Raised e end.

(** Monadic map, left to right, stopping at the first exception. *)
Fixpoint result_map {A B} (f : A -> result B) (l : list A) : result (list B) :=
  match l with
  | [] => Returned []
  | x :: rest => y ← f x; ys ← result_map f rest; mret (y :: ys)
  end.

(** [iter(v)]: lists give their items, strings their characters, dicts
    their keys; [None], booleans and numbers are not iterable
    ([TypeError]). *)
Definition py_iter (v : json) : result (list json) :=
  match v with
  | JArr items => Returned items
  | JStr s => Returned (JStr <$> py_chars s)
  | JObj members => Returned ((fun kv => JStr (fst kv)) <$> members)
  | JNull | JBool _ | JInt _ | JFloat _ => Raised TypeError
  end.

(** Whether [hash(v)] succeeds: lists and dicts are unhashable. *)
Definition hashable (v : json) : bool :=
  match v with
  | JArr _ | JObj _ => false
  | _ => true
  end.

(** [tuple(t)], then hashed to enter a set. *)
Definition hashed_tuple (t : json) : result (list json) :=
  tup ← py_iter t;
  if forallb hashable tup then Returned tup else Raised TypeError.

(** [f == n] for a float [f] and an [int] [n]: the comparison is exact,
    so they are equal when the float is finite and its value, the
    mantissa times two to the exponent, is the integer [n]. *)
Definition float_eq_int (f : spec_float) (n : Z) : bool :=
  match f with
  | S754_zero _ => n =? 0
  | S754_finite negative m e =>
      let mantissa := if negative then Z.neg m else Z.pos m in
      if 0 <=? e then n =? mantissa * 2 ^ e else n * 2 ^ (- e) =? mantissa
  | S754_infinity _ | S754_nan => false
  end.

(** [n != v] for an [int] [n]: Python compares an [int] with a [bool] or
    a float by value ([True] is 1); [None], strings, lists and dicts
    differ from every [int]. *)
Definition int_ne (n : Z) (v : json) : bool :=
  match v with
  | JInt m => negb (n =? m)
  | JBool b => negb (n =? (if b then 1 else 0))
  | JFloat f => negb (float_eq_int f n)
  | _ => true
  end.

(** ** Transfers *)

Definition transfer : Type := string * string.

(** The JSON form of the list [[p_out, p_in]]. *)
Definition transfer_json (t : transfer) : json := JArr [JStr (fst t); JStr (snd t)].

(** A tuple equal to some scraped pair [(p_out, p_in)]: exactly two
    strings. *)
Definition as_transfer (tup : list json) : option transfer :=
  match tup with
  | [JStr p_out; JStr p_in] => Some (p_out, p_in)
  | _ => None
  end.

(** [{tuple(t) for t in saved_transfers}].  The set is only ever
    subtracted from a set of pairs of strings, and a tuple of another
    shape equals no such pair, so only the tuples that are pairs of
    strings are kept; the exceptions are those of the comprehension. *)
Definition seen_set_of (saved_transfers : json) : result (gset transfer) :=
  ts ← py_iter saved_transfers;
  tuples ← result_map hashed_tuple ts;
  mret (list_to_set (omap as_transfer tuples)).

(** Iteration over a Python [set]: some enumeration of its elements, fixed
    by the interpreter process (string hashes are salted per process), and
    not by the program. *)
Record set_order : Type := SetOrder {
  set_iter : gset transfer -> list transfer;
  set_iter_perm : forall s, set_iter s ≡ₚ elements s
}.

(** ** The state file *)

Inductive file_status : Type :=
  | FileAbsent                (* [open] raises [FileNotFoundError] *)
  | FileUnparseable           (* [json.load] raises [JSONDecodeError] *)
  | FileDoc (data : json)     (* [json.load] returns [data] *)
  | FileUnreadable            (* [open(STATE_FILE, 'r')] raises another
                                 [OSError]: the file is there and may not
                                 be read *)
  | FileRejected (e : exn).   (* reading the text or [json.load] raises
                                 [e], an exception other than the two
                                 that [load_state] catches *)

(** Where a failing [save_state] fails. [open(STATE_FILE, 'w')] empties
    the file, [json.dump] fills it, leaving the [with] block closes it. *)
Inductive write_fault : Type :=
  | OpenFails       (* [open] raises: the file is as it was *)
  | DumpFails       (* the text is cut short: what is left of it, if
                       anything, does not parse *)
  | CloseFails.     (* the whole text has reached the file when closing
                       it raises *)

Record world : Type := World {
  state_file : file_status;     (* what [transfers.json] holds *)
  store_writable : bool;        (* whether a call of [save_state] succeeds *)
  write_log : list json;        (* every document written so far, oldest first *)
  failed_write : write_fault    (* where a call of [save_state] that
                                   fails does so *)
}.

Definition M (A : Type) : Type := world -> result A * world.

#[global] Instance M_ret : MRet M := fun A a w => (Returned a, w).
#[global] Instance M_bind : MBind M := fun A B f m w =>
  match m w with
  | (Returned a, w') => f a w'
  | (Raised e, w') => (Raised e, w')
  end.

Definition lift {A} (r : result A) : M A := fun w => (r, w).

Definition default_state : json :=
  JObj [("gameweek", JNull); ("transfers", JArr [])].

Definition load_state : M json := fun w =>
  match state_file w with
  | FileDoc data =>
      if is_dict data && has_key "gameweek" data && has_key "transfers" data
      then (Returned data, w)
      else (Returned default_state, w)
  | FileAbsent | FileUnparseable => (Returned default_state, w)
  | FileUnreadable => (Raised OSError, w)
  | FileRejected e => (Raised e, w)
  end.

Definition state_doc (gameweek : Z) (transfers : list transfer) : json :=
  JObj [("gameweek", JInt gameweek); ("transfers", JArr (transfer_json <$> transfers))].

(** What the file holds once [open(STATE_FILE, 'w')] has succeeded and
    [content] has reached it; a file that may not be read stays so. *)
Definition overwritten (content old : file_status) : file_status :=
  match old with
  | FileUnreadable => FileUnreadable
  | _ => content
  end.

(** [save_state]; every failure of the write is an [OSError]. *)
Definition save_state (gameweek : Z) (transfers : list transfer) : M unit := fun w =>
  let state := state_doc gameweek transfers in
  let replaced :=
    {| state_file := overwritten (FileDoc state) (state_file w);
       store_writable := store_writable w;
       write_log := write_log w ++ [state];
       failed_write := failed_write w |} in
  if store_writable w then (Returned (), replaced)
  else
    match failed_write w with
    | OpenFails => (Raised OSError, w)
    | DumpFails =>
        (Raised OSError,
         {| state_file := overwritten FileUnparseable (state_file w);
            store_writable := store_writable w;
            write_log := write_log w;
            failed_write := failed_write w |})
    | CloseFails => (Raised OSError, replaced)
    end.

(** ** The check *)

(** What the two collaborators answer during one invocation:
    [login_to_fix] a boolean, [scrape_target_transfers] the triple
    [(scraped_transfers, active_chip, gameweek)]. *)
Record observation : Type := Observation {
  login_ok : bool;
  scraped_transfers : list transfer;
  active_chip : option string;
  gameweek : option string
}.

(** [chip or 'None']: [None] and the empty string are both falsy. *)
Definition chip_or_none (chip : option string) : string :=
  match chip with
  | Some c => if String.eqb c "" then "None" else c
  | None => "None"
  end.

Definition msg_login_failed : string :=
  "âŒ *Login Failed*" +:+ nl +:+ "Could not log in to Fantasy Football Fix\.".

Definition msg_scraping_error : string :=
  "âš ï¸ *Scraping Error*" +:+ nl +:+ "Could not find the current gameweek\.".

Definition msg_gameweek_updated (current_gameweek : Z) : string :=
  " Gameweek has updated to *GW " +:+ str_of_int current_gameweek
    +:+ "*\. No transfers made yet\.".

Definition msg_no_new_transfers (current_gameweek : Z) : string :=
  "âœ… *No new transfers for GW " +:+ str_of_int current_gameweek
    +:+ "* since the last check\.".

Definition head_first_transfers (current_gameweek : Z) : string :=
  "ðŸš€ *First Transfers for GW " +:+ str_of_int current_gameweek
    +:+ " Detected* ðŸš€" +:+ nl.

Definition head_new_transfers (current_gameweek : Z) : string :=
  "ðŸš¨ *New Transfers Detected for GW " +:+ str_of_int current_gameweek
    +:+ "* ðŸš¨" +:+ nl.

Definition line_chip (escaped_chip : string) : string :=
  "Chip Active: *" +:+ escaped_chip +:+ "*" +:+ nl.

Definition line_out (p_out : string) : string :=
  "ðŸ”´ OUT: `" +:+ escape_markdown p_out +:+ "`".

Definition line_in (p_in : string) : string :=
  "ðŸŸ¢ IN: `" +:+ escape_markdown p_in +:+ "`" +:+ nl.

(** The body of both [for p_out, p_in in ...] loops. *)
Definition transfer_lines (ts : list transfer) : list string :=
  flat_map (fun t => [line_out (fst t); line_in (snd t)]) ts.

Definition check_for_new_transfers (seed : set_order) (obs : observation)
  : M (string * bool) :=
  if negb (login_ok obs) then mret (msg_login_failed, false) else
  let current_transfers := scraped_transfers obs in
  let chip := active_chip obs in
  match gameweek obs with
  | None => mret (msg_scraping_error, false)
  | Some current_gameweek_str =>
      current_gameweek ← lift (or_raise ValueError (int_of_str current_gameweek_str));
      saved_state ← load_state;
      let saved_gameweek := dict_get "gameweek" saved_state JNull in
      let saved_transfers := dict_get "transfers" saved_state (JArr []) in
      if int_ne current_gameweek saved_gameweek then
        (* Case 1: Gameweek has changed *)
        save_state current_gameweek current_transfers;;
        match current_transfers with
        | [] => mret (msg_gameweek_updated current_gameweek, false)
        | _ =>
            let message :=
              ([head_first_transfers current_gameweek;
                line_chip (escape_markdown (chip_or_none chip))]
               ++ transfer_lines current_transfers)%list in
            mret (join nl message, true)
        end
      else
        (* Case 2: Same gameweek, check for new transfers *)
        seen_set ← lift (seen_set_of saved_transfers);
        let current_set : gset transfer := list_to_set current_transfers in
        let new_transfers := current_set ∖ seen_set in
        if decide (new_transfers = ∅) then
          mret (msg_no_new_transfers current_gameweek, false)
        else
          save_state current_gameweek current_transfers;;
          let message :=
            ([head_new_transfers current_gameweek;
              line_chip (escape_markdown (chip_or_none chip));
              "*New Transfers:*" +:+ nl]
             ++ transfer_lines (set_iter seed new_transfers))%list in
          mret (join nl message, true)
  end.

(** ** The collaborators: [login_to_fix] and [scrape_target_transfers]

    The HTTP exchanges and the parsed pages are inputs: an exchange
    either fails with a [RequestException] ([raise_for_status] included)
    or gives a response, and a page is what the [find] and [find_all]
    calls of the source return on it. *)

(** [needle in hay] *)
Fixpoint str_contains (needle hay : string) : bool :=
  match hay with
  | "" => String.prefix needle ""
  | String _ rest => String.prefix needle hay || str_contains needle rest
  end.

Inductive http (A : Type) : Type :=
  | RequestError
  | Response (a : A).
Arguments RequestError {A}.
Arguments Response {A} a.

(** A page of the sign-in form. *)
Record form_page : Type := FormPage {
  (* [soup.find('input', {'name': 'csrfmiddlewaretoken'})]: the [value]
     attribute of the tag found, when it has one *)
  csrf_input : option (option string);
  (* [soup.find('input', {'type': 'password'})] finds a tag *)
  password_input : bool
}.

(** One [li] of the transfer list: for each [div.rtransfers__player] in
    it, the text of its [p.rtransfers__name], when it has one. *)
Record transfer_li : Type := TransferLi {
  player_divs : list (option string)
}.

(** The [div] of the target manager. *)
Record manager_div : Type := ManagerDiv {
  (* the text of the first [h3] whose string matches [Gameweek \d+] *)
  gameweek_h3 : option string;
  (* [li.rchip--active], and the text of its [span.rchip__chip] *)
  active_chip_li : option (option string);
  (* [ul.rtransfers__ul], and its [li.rtransfers__transfer] items *)
  transfers_ul : option (list transfer_li)
}.

(** What the site answers during one invocation. *)
Record fix_site : Type := FixSite {
  signin_page : http form_page;       (* [session.get(FIX_LOGIN_URL)] *)
  csrftoken_cookies : list (option string);
    (* the values of the cookies named [csrftoken] that the jar of the
       session holds after that request, in the order of iteration *)
  email_step : http form_page;        (* the post of the email *)
  password_step : http string;        (* the post of the password: [res_pass.text] *)
  reveal_page : http (option manager_div)
    (* [session.get(TARGET_URL)] and [soup.find('div', id='team2')];
       [RequestError] also stands for any other exception while scraping,
       which the source answers in the same way *)
}.

(** [RequestsCookieJar._find_no_duplicates] over the cookies of the
    name asked for: a second one met while a value is held is a
    [CookieConflictError]; [None] stands for its [KeyError]. *)
Fixpoint find_no_duplicates (toReturn : option string) (values : list (option string))
  : result (option string) :=
  match values with
  | [] =>
      match toReturn with
      | None | Some "" => Returned None
      | Some value => Returned (Some value)
      end
  | value :: rest =>
      match toReturn with
      | Some _ => Raised CookieConflictError
      | None => find_no_duplicates value rest
      end
  end.

(** [session.cookies.get('csrftoken')]: the [KeyError] gives the default,
    [None]. *)
Definition cookies_get (values : list (option string)) : result (option string) :=
  find_no_duplicates None values.

Definition login_to_fix (site : fix_site) : result bool :=
  match signin_page site with
  | RequestError => Returned false
  | Response page =>
      match csrf_input page with
      | None => Raised TypeError           (* [None['value']] *)
      | Some None => Returned false        (* [KeyError], caught *)
      | Some (Some csrf_token_form) =>
          csrf_token_cookie ← cookies_get (csrftoken_cookies site);
          match email_step site with
          | RequestError => Returned false
          | Response soup_pass =>
              if negb (password_input soup_pass) then Returned false
              else
                match csrf_input soup_pass with
                | None => Raised TypeError
                | Some None => Returned false
                | Some (Some csrf_token_pass) =>
                    match password_step site with
                    | RequestError => Returned false
                    | Response text =>
                        if str_contains "Logout" text
                           || str_contains "My Account" text
                        then Returned true
                        else Returned false
                    end
                end
          end
      end
  end.

(** The longest run of characters that [\d] matches at the head of
    [chars]: in a [str] pattern [\d] is any decimal digit of Unicode. *)
Fixpoint take_decimal (chars : list string) : list string :=
  match chars with
  | char :: rest => if is_decimal_char char then char :: take_decimal rest else []
  | [] => []
  end.

Definition leading_digits (s : string) : string :=
  concat_str (take_decimal (py_chars s)).

(** A match of [Gameweek (\d+)] at the head of [s]: its group 1. *)
Definition gameweek_at (s : string) : option string :=
  if String.prefix "Gameweek " s
  then match leading_digits (String.substring 9 (String.length s - 9) s) with
       | "" => None
       | digits => Some digits
       end
  else None.

(** [re.search(r'Gameweek (\d+)', s)], then [match.group(1)]: the
    leftmost match.  The literal part is ASCII, so it is looked for byte
    by byte. *)
Fixpoint search_gameweek (s : string) : option string :=
  match gameweek_at s with
  | Some digits => Some digits
  | None =>
      match s with
      | "" => None
      | String _ rest => search_gameweek rest
      end
  end.

(** The body of the loop over [transfer_items]; [strip] is [str.strip]. *)
Definition item_transfers (strip : string -> string) (item : transfer_li)
  : list transfer :=
  match player_divs item with
  | [Some out_text; Some in_text] =>
      let p_out := strip out_text in
      let p_in := strip in_text in
      if negb (str_contains "Default Player" p_out)
         && negb (str_contains "Default Player" p_in)
      then [(p_out, p_in)]
      else []
  | _ => []
  end.

(** The triple [(scraped_transfers, active_chip, gameweek)]. *)
Definition scrape_target_transfers (strip : string -> string)
    (page : http (option manager_div))
  : list transfer * option string * option string :=
  match page with
  | Response (Some manager_section) =>
      let gameweek :=
        match gameweek_h3 manager_section with
        | Some text => search_gameweek text
        | None => None
        end in
      let active_chip :=
        match active_chip_li manager_section with
        | Some (Some text) => Some (strip text)
        | _ => None
        end in
      let scraped_transfers :=
        match transfers_ul manager_section with
        | Some transfer_items => flat_map (item_transfers strip) transfer_items
        | None => []
        end in
      (scraped_transfers, active_chip, gameweek)
  | Response None | RequestError => ([], None, None)
  end.

(** What [check_for_new_transfers] observes of a site: the answer of
    [login_to_fix], then the triple of [scrape_target_transfers] (which
    the source only asks for after a successful login, and only then
    looks at). *)
Definition observe (strip : string -> string) (site : fix_site) : result observation :=
  ok ← login_to_fix site;
  let '(scraped, chip, token) := scrape_target_transfers strip (reveal_page site) in
  mret {| login_ok := ok; scraped_transfers := scraped; active_chip := chip;
          gameweek := token |}.

(** [check_for_new_transfers] with its two collaborators run on [site]. *)
Definition check_site (seed : set_order) (strip : string -> string) (site : fix_site)
  : M (string * bool) :=
  obs ← lift (observe strip site);
  check_for_new_transfers seed obs.

(** ** Vocabulary of the specification

    The notions the specification speaks of, written down on their own:
    none of them goes through the functions that build the messages or
    the stored document in the program. *)

(** The tagged outcomes of the specification's reconciliation engine. *)
Inductive outcome : Type :=
  | LoginFailed
  | ExtractionFailed
  | PeriodRolledOver (newPeriod : Z) (pairs : list transfer) (modifier : option string)
  | NoNewTransfers (period : Z)
  | NewTransfersFound (period : Z) (newPairs : list transfer) (modifier : option string).

Definition noteworthy (o : outcome) : bool :=
  match o with
  | PeriodRolledOver _ [] _ => false
  | PeriodRolledOver _ _ _ => true
  | NewTransfersFound _ _ _ => true
  | LoginFailed | ExtractionFailed | NoNewTransfers _ => false
  end.

(** *** The text of the messages *)

(** The escaping the specification describes, character by character. *)
Definition reserved (c : ascii) : Prop :=
  c ∈ ["_"; "*"; "["; "]"; "("; ")"; "~"; "`"; ">"; "#"; "+"; "-"; "="; "|";
       "{"; "}"; "."; "!"]%char.

Inductive escaped : string -> string -> Prop :=
  | escaped_empty : escaped "" ""
  | escaped_reserved c text out :
      reserved c -> escaped text out ->
      escaped (String c text) (String "\" (String c out))
  | escaped_plain c text out :
      ~ reserved c -> escaped text out ->
      escaped (String c text) (String c out).

Fixpoint escaped_text (text : string) : string :=
  match text with
  | "" => ""
  | String c rest =>
      if bool_decide (reserved c)
      then String "\" (String c (escaped_text rest))
      else String c (escaped_text rest)
  end.

Definition line_feed : string := String "010" "".

(** A period, in decimal. *)
Definition shown_period (period : Z) : string :=
  NilZero.string_of_int (Z.to_int period).

(** The active modifier, [None] when there is none. *)
Definition shown_modifier (modifier : option string) : string :=
  match modifier with
  | None | Some "" => "None"
  | Some chip => escaped_text chip
  end.

(** The two lines of a pair, each closed by a line feed. *)
Definition shown_pair (pair : transfer) : string :=
  "ðŸ”´ OUT: `" +:+ escaped_text pair.1 +:+ "`" +:+ line_feed
    +:+ "ðŸŸ¢ IN: `" +:+ escaped_text pair.2 +:+ "`" +:+ line_feed.

(** The message of each outcome: a heading, then for the two outcomes
    that list pairs the modifier and the pairs, one empty line between
    the parts and between the pairs. *)
Definition format_outcome (o : outcome) : string :=
  match o with
  | LoginFailed =>
      "âŒ *Login Failed*" +:+ line_feed +:+ "Could not log in to Fantasy Football Fix\."
  | ExtractionFailed =>
      "âš ï¸ *Scraping Error*" +:+ line_feed +:+ "Could not find the current gameweek\."
  | PeriodRolledOver period [] _ =>
      " Gameweek has updated to *GW " +:+ shown_period period +:+ "*\. No transfers made yet\."
  | PeriodRolledOver period pairs modifier =>
      "ðŸš€ *First Transfers for GW " +:+ shown_period period +:+ " Detected* ðŸš€"
        +:+ line_feed +:+ line_feed
        +:+ "Chip Active: *" +:+ shown_modifier modifier +:+ "*"
        +:+ line_feed +:+ line_feed
        +:+ String.concat line_feed (shown_pair <$> pairs)
  | NoNewTransfers period =>
      "âœ… *No new transfers for GW " +:+ shown_period period +:+ "* since the last check\."
  | NewTransfersFound period newPairs modifier =>
      "ðŸš¨ *New Transfers Detected for GW " +:+ shown_period period +:+ "* ðŸš¨"
        +:+ line_feed +:+ line_feed
        +:+ "Chip Active: *" +:+ shown_modifier modifier +:+ "*"
        +:+ line_feed +:+ line_feed
        +:+ "*New Transfers:*" +:+ line_feed +:+ line_feed
        +:+ String.concat line_feed (shown_pair <$> newPairs)
  end.

(** The value [check_for_new_transfers] returns for an outcome. *)
Definition answer (o : outcome) : result (string * bool) :=
  Returned (format_outcome o, noteworthy o).

(** The outcome of a same-period check that lists [delta] as new. *)
Definition same_period_outcome (gw : Z) (chip : option string) (delta : list transfer)
  : outcome :=
  match delta with
  | [] => NoNewTransfers gw
  | _ => NewTransfersFound gw delta chip
  end.

(** *** Snapshots and the persisted state *)

(** The snapshot is observed, and its period token reads [gw]. *)
Definition observed (obs : observation) (gw : Z) : Prop :=
  login_ok obs = true /\
  exists token, gameweek obs = Some token /\ int_of_str token = Some gw.

(** The pair set of a snapshot. *)
Definition pairs_of (obs : observation) : gset transfer :=
  list_to_set (scraped_transfers obs).

(** The baseline the next check starts from: what [load_state] returns. *)
Definition persisted (w : world) : json :=
  match load_state w with
  | (Returned data, _) => data
  | (Raised _, _) => default_state
  end.

(** The store can be read: [load_state] returns the baseline. *)
Definition readable (w : world) : Prop :=
  load_state w = (Returned (persisted w), w).

Definition period_json (period : option Z) : json :=
  match period with
  | Some gw => JInt gw
  | None => JNull
  end.

(** The document of a baseline: the period with the pairs, each a list
    of its two names. *)
Definition pair_doc (pair : transfer) : json := JArr [JStr pair.1; JStr pair.2].

Definition baseline_doc (period : Z) (pairs : list transfer) : json :=
  JObj [("gameweek", JInt period); ("transfers", JArr (pair_doc <$> pairs))].

(** The empty state, of a store with no baseline. *)
Definition empty_doc : json :=
  JObj [("gameweek", JNull); ("transfers", JArr [])].

(** The store can be read and the persisted period is [period] ([None]:
    absent, as on a first run). *)
Definition persisted_period (w : world) (period : option Z) : Prop :=
  readable w /\ dict_get "gameweek" (persisted w) JNull = period_json period.

(** The store can be read and the persisted pairs are the list [pairs],
    each stored as the list of its two names. *)
Definition persisted_transfers (w : world) (pairs : list transfer) : Prop :=
  readable w /\
  dict_get "transfers" (persisted w) (JArr []) = JArr (pair_doc <$> pairs).

(** The pair set a same-period check compares against. *)
Definition persisted_pairs (w : world) : gset transfer :=
  match seen_set_of (dict_get "transfers" (persisted w) (JArr [])) with
  | Returned seen => seen
  | Raised _ => ∅
  end.

(** The world after a successful [save_state gw transfers] on a file that
    can be read. *)
Definition written (gw : Z) (transfers : list transfer) (w : world) : world :=
  {| state_file := FileDoc (state_doc gw transfers);
     store_writable := store_writable w;
     write_log := write_log w ++ [state_doc gw transfers];
     failed_write := failed_write w |}.

(** The world a failing [save_state gw transfers] leaves, on a file that
    can be read. *)
Definition unwritten (gw : Z) (transfers : list transfer) (w : world) : world :=
  match failed_write w with
  | OpenFails => w
  | DumpFails =>
      {| state_file := FileUnparseable;
         store_writable := store_writable w;
         write_log := write_log w;
         failed_write := failed_write w |}
  | CloseFails => written gw transfers w
  end.

(** What a failed write of the baseline [period], [pairs] leaves in a
    file that could be read: the file as it was, a text that does not
    parse, or the new baseline. *)
Definition left_by_failed_write (period : Z) (pairs : list transfer) (w : world)
  : file_status :=
  match failed_write w with
  | OpenFails => state_file w
  | DumpFails => FileUnparseable
  | CloseFails => FileDoc (baseline_doc period pairs)
  end.

(** *** Successive checks *)

(** Successive checks, each starting from the world the previous one
    left. *)
Fixpoint run_checks (seed : set_order) (snapshots : list observation) (w : world)
  : list (result (string * bool)) * world :=
  match snapshots with
  | [] => ([], w)
  | obs :: rest =>
      let '(r, w') := check_for_new_transfers seed obs w in
      let '(rs, w'') := run_checks seed rest w' in
      (r :: rs, w'')
  end.

Definition world_after (seed : set_order) (snapshots : list observation) (w : world)
  : world :=
  (run_checks seed snapshots w).2.

(** Every pair seen up to a point: those of the starting baseline and
    those of the snapshots checked so far. *)
Definition seen_so_far (base : gset transfer) (snapshots : list observation)
  : gset transfer :=
  base ∪ ⋃ (pairs_of <$> snapshots).

(** At every point of the run, the baseline holds every pair seen so
    far. *)
Definition history_kept (seed : set_order) (w : world) (snapshots : list observation)
  : Prop :=
  forall k,
    seen_so_far (persisted_pairs w) (take k snapshots)
    ⊆ persisted_pairs (world_after seed (take k snapshots) w).

(** No snapshot brings a new pair while lacking a pair seen before: each
    one either holds nothing new, or holds everything seen so far. *)
Fixpoint never_drops (seen : gset transfer) (snapshots : list observation) : Prop :=
  match snapshots with
  | [] => True
  | obs :: rest =>
      (pairs_of obs ⊆ seen \/ seen ⊆ pairs_of obs) /\
      never_drops (seen ∪ pairs_of obs) rest
  end.

(** *** Loading *)

(** What the specification has [load_state] do for each content of the
    state file, with the cases in which the program raises instead. *)
Inductive loads_as : file_status -> result json -> Prop :=
  | loads_absent : loads_as FileAbsent (Returned empty_doc)
  | loads_unparseable : loads_as FileUnparseable (Returned empty_doc)
  | loads_legacy data :
      (forall members, data <> JObj members) ->
      loads_as (FileDoc data) (Returned empty_doc)
  | loads_missing_key members :
      dict_lookup "gameweek" members = None \/ dict_lookup "transfers" members = None ->
      loads_as (FileDoc (JObj members)) (Returned empty_doc)
  | loads_stored members :
      is_Some (dict_lookup "gameweek" members) ->
      is_Some (dict_lookup "transfers" members) ->
      loads_as (FileDoc (JObj members)) (Returned (JObj members))
  | loads_unreadable : loads_as FileUnreadable (Raised OSError)
  | loads_rejected e : loads_as (FileRejected e) (Raised e).

(** *** Period tokens *)

(** One character of a text: a byte that is no continuation byte, with
    continuation bytes only behind it. *)
Definition is_char (char : string) : bool :=
  match char with
  | String c rest =>
      negb (is_continuation c) && forallb is_continuation (list_ascii_of_string rest)
  | "" => false
  end.

(** The value of a character that is a decimal digit. *)
Definition char_digit (char : string) : option Z :=
  match code_point char with
  | Some cp => unicode_decimal cp
  | None => None
  end.

(** The ASCII numeral written with the digits [digits]. *)
Definition ascii_digit (d : Z) : ascii := ascii_of_N (48 + Z.to_N d).

Fixpoint digits_text (digits : list Z) : string :=
  match digits with
  | [] => ""
  | d :: rest => String (ascii_digit d) (digits_text rest)
  end.

(** UTF-8: the bytes of the character of code point [cp]. *)
Definition utf8 (cp : N) : string :=
  let byte (n : N) := String (ascii_of_N n) in
  if (cp <? 128)%N then byte cp ""
  else if (cp <? 2048)%N
  then byte (192 + cp / 64)%N (byte (128 + cp mod 64)%N "")
  else if (cp <? 65536)%N
  then byte (224 + cp / 4096)%N
         (byte (128 + (cp / 64) mod 64)%N (byte (128 + cp mod 64)%N ""))
  else byte (240 + cp / 262144)%N
         (byte (128 + (cp / 4096) mod 64)%N
            (byte (128 + (cp / 64) mod 64)%N (byte (128 + cp mod 64)%N ""))).

(** The text written with the characters [cps]. *)
Fixpoint written_with (cps : list N) : string :=
  match cps with
  | [] => ""
  | cp :: rest => utf8 cp +:+ written_with rest
  end.

(** The value of a run of digits in base ten, the most significant
    first. *)
Fixpoint least_first (digits : list Z) : Z :=
  match digits with
  | [] => 0
  | d :: rest => d + 10 * least_first rest
  end.

Definition positional (digits : list Z) : Z := least_first (rev digits).

(** [token] is a numeral of [n] in [count] digits: a run of decimal
    digits, of any script, whose value in base ten is [n]. *)
Definition numeral (token : string) (count : nat) (n : Z) : Prop :=
  exists cps digits,
    token = written_with cps /\
    Forall2 (fun cp d => unicode_decimal cp = Some d) cps digits /\
    length cps = count /\ (0 < count)%nat /\
    n = positional digits.

(** *** The entry point on a site *)

(** The cookie jar holds a further [csrftoken] cookie after one that
    has a value. *)
Definition cookie_conflict (values : list (option string)) : Prop :=
  exists i value,
    values !! i = Some (Some value) /\ (S i < length values)%nat.

(** The ways in which the login lets an exception escape. *)
Inductive login_escapes (site : fix_site) : exn -> Prop :=
  | signin_lacks_csrf_input page :
      signin_page site = Response page ->
      csrf_input page = None ->
      login_escapes site TypeError
  | csrftoken_cookie_twice page csrf_token_form :
      signin_page site = Response page ->
      csrf_input page = Some (Some csrf_token_form) ->
      cookie_conflict (csrftoken_cookies site) ->
      login_escapes site CookieConflictError
  | email_step_lacks_csrf_input page csrf_token_form soup_pass :
      signin_page site = Response page ->
      csrf_input page = Some (Some csrf_token_form) ->
      ~ cookie_conflict (csrftoken_cookies site) ->
      email_step site = Response soup_pass ->
      password_input soup_pass = true ->
      csrf_input soup_pass = None ->
      login_escapes site TypeError.

(** The login goes through. *)
Definition logged_in (site : fix_site) : Prop :=
  exists page csrf_token_form soup_pass csrf_token_pass text,
    signin_page site = Response page /\
    csrf_input page = Some (Some csrf_token_form) /\
    ~ cookie_conflict (csrftoken_cookies site) /\
    email_step site = Response soup_pass /\
    password_input soup_pass = true /\
    csrf_input soup_pass = Some (Some csrf_token_pass) /\
    password_step site = Response text /\
    ((exists pre post, text = pre +:+ "Logout" +:+ post) \/
     (exists pre post, text = pre +:+ "My Account" +:+ post)).

(** What the page shows: the period token and the pairs. *)
Definition page_token (strip : string -> string) (site : fix_site) : option string :=
  (scrape_target_transfers strip (reveal_page site)).2.

Definition page_pairs (strip : string -> string) (site : fix_site) : list transfer :=
  (scrape_target_transfers strip (reveal_page site)).1.1.

Definition page_chip (strip : string -> string) (site : fix_site) : option string :=
  (scrape_target_transfers strip (reveal_page site)).1.2.

(** The snapshot of a page reached after a login that went through. *)
Definition page_snapshot (strip : string -> string) (site : fix_site) : observation :=
  {| login_ok := true;
     scraped_transfers := page_pairs strip site;
     active_chip := page_chip strip site;
     gameweek := page_token strip site |}.

(** The check of a page of period [gw] gets as far as writing the state:
    the persisted period is another one, or some pair of the page is not
    among the persisted tuples. *)
Definition reaches_write (gw : Z) (pairs : list transfer) (w : world) : Prop :=
  int_ne gw (dict_get "gameweek" (persisted w) JNull) = true \/
  exists seen,
    seen_set_of (dict_get "transfers" (persisted w) (JArr [])) = Returned seen /\
    ~ list_to_set pairs ⊆ seen.



(** Two enumeration orders of a set: the one of [elements], and its
    reverse. *)
Definition seed_forward : set_order :=
  SetOrder elements (fun s => Permutation_refl (elements s)).

Definition seed_backward : set_order :=
  SetOrder (fun s => reverse (elements s)) (fun s => reverse_Permutation (elements s)).

(** ** Inputs for the examples *)

(** A snapshot of a logged-in scrape with an active chip absent. *)
Definition snapshot (token : string) (pairs : list transfer) : observation :=
  {| login_ok := true; scraped_transfers := pairs; active_chip := None;
     gameweek := Some token |}.

(** The snapshot [obs] with [token] as its period token. *)
Definition with_token (obs : observation) (token : string) : observation :=
  {| login_ok := login_ok obs; scraped_transfers := scraped_transfers obs;
     active_chip := active_chip obs; gameweek := Some token |}.

(** A store holding [file], written to with success or not. *)
Definition store (file : file_status) (writable : bool) (fault : write_fault) : world :=
  {| state_file := file; store_writable := writable; write_log := [];
     failed_write := fault |}.

(** A writable store on its first run: no state file yet. *)
Definition first_run : world := store FileAbsent true OpenFails.

(** A writable store holding the baseline [gw], [pairs]. *)
Definition stored (gw : Z) (pairs : list transfer) : world :=
  store (FileDoc (state_doc gw pairs)) true OpenFails.


(** A store holding the baseline [gw], [pairs], whose writes fail. *)
Definition failing_store (gw : Z) (pairs : list transfer) (fault : write_fault)
  : world :=
  store (FileDoc (baseline_doc gw pairs)) false fault.

(** A state file whose bytes are no UTF-8 text. *)
Definition undecodable_store : world :=
  store (FileRejected UnicodeDecodeError) true OpenFails.

(** A state file that may be written and not read. *)
Definition write_only_store : world := store FileUnreadable true OpenFails.

(** A state file of the old format: a bare list. *)
Definition legacy_store : world := store (FileDoc (JArr [])) true OpenFails.

(** A state file of gameweek 5 whose transfers are [null]. *)
Definition malformed_store : world :=
  store (FileDoc (JObj [("gameweek", JInt 5); ("transfers", JNull)])) true OpenFails.

(** The source is unavailable: [login_to_fix] answered [False]. *)
Definition login_failure : observation :=
  {| login_ok := false; scraped_transfers := []; active_chip := None;
     gameweek := None |}.

(** A pair leaves the page while another one appears, then comes back. *)
Definition flickering_snapshots : list observation :=
  [snapshot "5" [("A", "B")];
   snapshot "5" [("C", "D")];
   snapshot "5" [("A", "B"); ("C", "D")]].

(** Snapshots in which pairs come and go, none of them bringing a new
    pair while lacking an old one. *)
Definition growing_snapshots : list observation :=
  [snapshot "5" [("A", "B")];
   snapshot "5" [];
   snapshot "5" [("A", "B"); ("C", "D")];
   snapshot "5" [("C", "D")];
   snapshot "5" [("C", "D"); ("A", "B")]].

(** [token] behind [n] zeros. *)
Fixpoint zero_padded (n : nat) (token : string) : string :=
  match n with
  | O => token
  | S n' => String "0" (zero_padded n' token)
  end.

(** ** The Telegram handlers *)

(** A message handed to Telegram. *)
Record delivery : Type := Delivery {
  to_chat : Z;
  message_text : string;
  markdown_v2 : bool          (* [parse_mode=ParseMode.MARKDOWN_V2] *)
}.

(** A job of the job queue; all are daily runs of [send_daily_report]. *)
Record job : Type := Job {
  job_name : string;
  job_chat_id : Z
}.

Record bot : Type := Bot {
  state_store : world;
  sent : list delivery;       (* every message delivered so far, oldest first *)
  job_queue : list job;
  telegram_up : bool          (* whether Telegram accepts a message *)
}.

Inductive failure : Type :=
  | CheckRaised (e : exn)     (* an exception of [check_for_new_transfers] *)
  | TelegramError.            (* an exception of [send_message] or [reply_text] *)

Inductive handled : Type :=
  | Done
  | Failed (f : failure).

Definition with_store (w : world) (b : bot) : bot :=
  {| state_store := w; sent := sent b; job_queue := job_queue b;
     telegram_up := telegram_up b |}.

Definition with_jobs (jobs : list job) (b : bot) : bot :=
  {| state_store := state_store b; sent := sent b; job_queue := jobs;
     telegram_up := telegram_up b |}.

(** [bot.send_message(chat_id, text)] and [message.reply_text(text)]. *)
Definition send_message (chat_id : Z) (text : string) (markdown : bool) (b : bot)
  : handled * bot :=
  if telegram_up b
  then (Done,
        {| state_store := state_store b;
           sent := sent b ++ [Delivery chat_id text markdown];
           job_queue := job_queue b;
           telegram_up := telegram_up b |})
  else (Failed TelegramError, b).

(** [send_daily_report]; [check] is the call
    [check_for_new_transfers(fix_email, fix_password)], [chat_id] is
    [context.job.chat_id]. *)
Definition send_daily_report (check : M (string * bool)) (chat_id : Z) (b : bot)
  : handled * bot :=
  match check (state_store b) with
  | (Raised e, w) => (Failed (CheckRaised e), with_store w b)
  | (Returned (message, has_updates), w) =>
      if has_updates
      then send_message chat_id message true (with_store w b)
      else (Done, with_store w b)
  end.

Definition msg_checking : string := "ðŸ”Ž Checking for new transfers...".

(** The handler of [/check]; [chat_id] is the chat of the update. *)
Definition check_command (check : M (string * bool)) (chat_id : Z) (b : bot)
  : handled * bot :=
  match send_message chat_id msg_checking false b with
  | (Failed f, b1) => (Failed f, b1)
  | (Done, b1) =>
      match check (state_store b1) with
      | (Raised e, w) => (Failed (CheckRaised e), with_store w b1)
      | (Returned (result_message, _), w) =>
          send_message chat_id result_message true (with_store w b1)
      end
  end.

Definition msg_admin_not_configured : string :=
  "âš ï¸ **Admin Not Configured**" +:+ nl
    +:+ " The bot owner has not set the `ADMIN_USER_ID`\.".

Definition msg_unauthorized : string :=
  "âŒ **Unauthorized**" +:+ nl
    +:+ " You are not authorized to run this command\.".

(** [REPORT_TIME.strftime("%H:%M")] for 23:20. *)
Definition time_str : string := "23:20".

(** [REPORT_TIME.tzinfo] in an f-string: the key of the zone. *)
Definition tz_str : string := "Asia/Singapore".

Definition msg_scheduled : string :=
  "âœ… *Successfully Scheduled*" +:+ nl
    +:+ "I will send a daily transfer report to this chat every day at *"
    +:+ escape_markdown time_str +:+ " " +:+ tz_str
    +:+ "*\. I will only message you if there are new transfers\.".

(** The handler of [/start]; [admin_id] is [os.getenv("ADMIN_USER_ID")]. *)
Definition start (admin_id : option string) (user_id chat_id : Z) (b : bot)
  : handled * bot :=
  match admin_id with
  | None | Some "" => send_message chat_id msg_admin_not_configured false b
  | Some admin_id =>
      if negb (String.eqb (str_of_int user_id) admin_id)
      then send_message chat_id msg_unauthorized false b
      else
        let name := str_of_int chat_id in
        (* [for job in get_jobs_by_name(name): job.schedule_removal()] *)
        let remaining :=
          filter (fun j => job_name j <> name) (job_queue b) in
        (* [run_daily(send_daily_report, time=REPORT_TIME, chat_id=chat_id, name=name)] *)
        let scheduled := (remaining ++ [Job name chat_id])%list in
        send_message chat_id msg_scheduled true (with_jobs scheduled b)
  end.

(** The jobs named [name]: [job_queue.get_jobs_by_name(name)]. *)
Definition jobs_by_name (name : string) (b : bot) : list job :=
  filter (fun j => job_name j = name) (job_queue b).

(** ASCII blanks removed at both ends: an instance of [str.strip] for the
    examples. *)
Fixpoint lstrip_spaces (s : string) : string :=
  match s with
  | String " " rest => lstrip_spaces rest
  | _ => s
  end.

Definition strip_spaces (s : string) : string :=
  String.rev (lstrip_spaces (String.rev (lstrip_spaces s))).

(** A site on which everything works: gameweek 5, one transfer, one
    placeholder row. *)
Definition working_site : fix_site :=
  {| signin_page := Response (FormPage (Some (Some "t1")) false);
     csrftoken_cookies := [Some "c1"];
     email_step := Response (FormPage (Some (Some "t2")) true);
     password_step := Response "<a>Logout</a>";
     reveal_page :=
       Response
         (Some {| gameweek_h3 := Some "Gameweek 5";
                  active_chip_li := None;
                  transfers_ul :=
                    Some [TransferLi [Some " X "; Some "Y"];
                          TransferLi [Some "Default Player"; Some "Z"]] |}) |}.



(** The site when it cannot be reached. *)
Definition site_down : fix_site :=
  {| signin_page := RequestError;
     csrftoken_cookies := [];
     email_step := RequestError;
     password_step := RequestError;
     reveal_page := RequestError |}.

(** The working site when the page of the managers cannot be fetched. *)
Definition site_without_page : fix_site :=
  {| signin_page := signin_page working_site;
     csrftoken_cookies := csrftoken_cookies working_site;
     email_step := email_step working_site;
     password_step := password_step working_site;
     reveal_page := RequestError |}.

(** A bot on its first run, with Telegram reachable. *)
Definition fresh_bot : bot :=
  {| state_store := first_run; sent := []; job_queue := []; telegram_up := true |}.

(** * Properties *)

(** ** Strings *)

Section Strings.

Lemma append_cons (c : ascii) (a b : string) :
  String c a +:+ b = String c (a +:+ b).
Proof. reflexivity. Qed.

Lemma append_assoc (a b c : string) : (a +:+ b) +:+ c = a +:+ b +:+ c.
Proof.
  induction a as [|x a IH]; [reflexivity|].
  by rewrite !append_cons, IH.
Qed.

Lemma append_nil_r (a : string) : a +:+ "" = a.
Proof. induction a as [|x a IH]; [reflexivity|]. by rewrite append_cons, IH. Qed.

Lemma prefix_spec (needle hay : string) :
  String.prefix needle hay = true <-> exists post, hay = needle +:+ post.
Proof.
  revert hay. induction needle as [|a needle IH]; intros hay.
  - destruct hay; cbn; split; eauto.
  - destruct hay as [|b hay]; cbn.
    + split; [discriminate|]. intros [post H].
      rewrite append_cons in H. discriminate.
    + destruct (ascii_dec a b) as [->|Hne].
      * rewrite IH. split; intros [post H]; exists post;
          rewrite append_cons in *; congruence.
      * split; [discriminate|]. intros [post H].
        rewrite append_cons in H. congruence.
Qed.

(** [str_contains] is the substring test. *)
Lemma str_contains_spec (needle hay : string) :
  str_contains needle hay = true <->
  exists pre post, hay = pre +:+ needle +:+ post.
Proof.
  induction hay as [|c hay IH].
  - cbn [str_contains]. rewrite prefix_spec. split.
    + intros [post H]. by exists "", post.
    + intros (pre & post & H). destruct pre; [by exists post|].
      rewrite append_cons in H. discriminate.
  - cbn [str_contains]. rewrite orb_true_iff, prefix_spec, IH. split.
    + intros [[post H]|(pre & post & H)].
      * by exists "", post.
      * exists (String c pre), post. rewrite append_cons. by rewrite H.
    + intros (pre & post & H). destruct pre as [|p pre].
      * left. by exists post.
      * right. exists pre, post. rewrite append_cons in H. congruence.
Qed.

Lemma join_cons (sep p q : string) (rest : list string) :
  join sep (p :: q :: rest) = p +:+ sep +:+ join sep (q :: rest).
Proof. reflexivity. Qed.

Lemma concat_cons (sep p q : string) (rest : list string) :
  String.concat sep (p :: q :: rest) = p +:+ sep +:+ String.concat sep (q :: rest).
Proof. reflexivity. Qed.

End Strings.

(** ** Escaping *)

Section Escaping.

Lemma char_in_elem_of (c : ascii) (s : string) :
  char_in c s = true <-> c ∈ list_ascii_of_string s.
Proof.
  induction s as [|d s IH]; simpl.
  - split; [discriminate | intros H; inversion H].
  - rewrite orb_true_iff, IH, Ascii.eqb_eq, elem_of_cons. tauto.
Qed.

Lemma char_in_reserved (c : ascii) :
  char_in c escape_chars = true <-> reserved c.
Proof. apply char_in_elem_of. Qed.

Lemma escape_markdown_cons (c : ascii) (text : string) :
  escape_markdown (String c text) =
    if char_in c escape_chars
    then String "\" (String c (escape_markdown text))
    else String c (escape_markdown text).
Proof.
  unfold escape_markdown. cbn [list_ascii_of_string map concat_str].
  destruct (char_in c escape_chars); reflexivity.
Qed.

Lemma escape_markdown_escaped (text : string) :
  escaped text (escape_markdown text).
Proof.
  induction text as [|c text IH]; [constructor|].
  rewrite escape_markdown_cons.
  destruct (char_in c escape_chars) eqn:E.
  - apply escaped_reserved; [by apply char_in_reserved | exact IH].
  - apply escaped_plain; [| exact IH].
    rewrite <- char_in_reserved, E. discriminate.
Qed.

Lemma escaped_escape_markdown (text out : string) :
  escaped text out -> escape_markdown text = out.
Proof.
  induction 1 as [|c text out Hc _ IH|c text out Hc _ IH];
    [reflexivity | |]; rewrite escape_markdown_cons, IH.
  - apply char_in_reserved in Hc. by rewrite Hc.
  - destruct (char_in c escape_chars) eqn:E; [|reflexivity].
    apply char_in_reserved in E. contradiction.
Qed.

(** C9. [escape_markdown text] is the string obtained from [text] by
    putting a backslash before every character of the fixed set
    [_*[]()~`>#+-=|{}.!] and leaving every other character as it is,
    character by character: it is the one string related to [text] by
    [escaped]. *)
Theorem escape_markdown_spec (text out : string) :
  escape_markdown text = out <-> escaped text out.
Proof.
  split.
  - intros <-. apply escape_markdown_escaped.
  - apply escaped_escape_markdown.
Qed.

(** Escaping distributes over concatenation, so escaping the bytes of a
    UTF-8 text escapes its characters. *)
Lemma escape_markdown_app (a b : string) :
  escape_markdown (a +:+ b) = escape_markdown a +:+ escape_markdown b.
Proof.
  induction a as [|c a IH]; [reflexivity|].
  change (String c a +:+ b) with (String c (a +:+ b)).
  rewrite !escape_markdown_cons, IH.
  destruct (char_in c escape_chars); reflexivity.
Qed.

Lemma escape_markdown_escaped_text (text : string) :
  escape_markdown text = escaped_text text.
Proof.
  induction text as [|c text IH]; [reflexivity|].
  rewrite escape_markdown_cons. cbn [escaped_text]. rewrite IH.
  destruct (char_in c escape_chars) eqn:E.
  - by rewrite bool_decide_eq_true_2 by by apply char_in_reserved.
  - rewrite bool_decide_eq_false_2; [reflexivity|].
    rewrite <- char_in_reserved, E. discriminate.
Qed.

End Escaping.

(** ** The text of the messages *)

Section Messages.

Lemma chip_shown (chip : option string) :
  escape_markdown (chip_or_none chip) = shown_modifier chip.
Proof.
  destruct chip as [[|c chip]|]; [reflexivity | | reflexivity].
  apply escape_markdown_escaped_text.
Qed.

(** The lines of the two loops, joined, are the pairs shown one after
    the other. *)
Lemma transfer_lines_cons (t : transfer) (ts : list transfer) :
  transfer_lines (t :: ts) = line_out t.1 :: line_in t.2 :: transfer_lines ts.
Proof. reflexivity. Qed.

Lemma transfer_lines_shown (t : transfer) (ts : list transfer) :
  join nl (transfer_lines (t :: ts)) = String.concat line_feed (shown_pair <$> t :: ts).
Proof.
  revert t. induction ts as [|t' ts IH]; intros t.
  - cbn [transfer_lines flat_map app join fmap list_fmap String.concat].
    unfold line_out, line_in, shown_pair.
    rewrite <- !escape_markdown_escaped_text, !append_assoc. reflexivity.
  - rewrite transfer_lines_cons, join_cons.
    rewrite (transfer_lines_cons t' ts) at 1. rewrite join_cons.
    rewrite <- (transfer_lines_cons t' ts), IH.
    change (shown_pair <$> t :: t' :: ts)
      with (shown_pair t :: shown_pair t' :: (shown_pair <$> ts)).
    rewrite concat_cons.
    change (shown_pair t' :: (shown_pair <$> ts)) with (shown_pair <$> t' :: ts).
    unfold line_out, line_in, shown_pair.
    rewrite <- !escape_markdown_escaped_text, !append_assoc. reflexivity.
Qed.

Lemma message_login_failed : msg_login_failed = format_outcome LoginFailed.
Proof. reflexivity. Qed.

Lemma message_scraping_error : msg_scraping_error = format_outcome ExtractionFailed.
Proof. reflexivity. Qed.

Lemma message_no_new_transfers (gw : Z) :
  msg_no_new_transfers gw = format_outcome (NoNewTransfers gw).
Proof. reflexivity. Qed.

Lemma message_rollover (gw : Z) (ts : list transfer) (chip : option string) :
  match ts with
  | [] => msg_gameweek_updated gw
  | _ =>
      join nl ([head_first_transfers gw;
                line_chip (escape_markdown (chip_or_none chip))]
               ++ transfer_lines ts)%list
  end = format_outcome (PeriodRolledOver gw ts chip).
Proof.
  destruct ts as [|t ts]; [reflexivity|].
  cbn [app]. rewrite transfer_lines_cons. do 2 rewrite join_cons.
  rewrite <- transfer_lines_cons, transfer_lines_shown, chip_shown.
  unfold format_outcome, head_first_transfers, line_chip, str_of_int, shown_period.
  rewrite !append_assoc. reflexivity.
Qed.

Lemma message_new_transfers (gw : Z) (t : transfer) (ts : list transfer)
    (chip : option string) :
  join nl ([head_new_transfers gw;
            line_chip (escape_markdown (chip_or_none chip));
            "*New Transfers:*" +:+ nl]
           ++ transfer_lines (t :: ts))%list
  = format_outcome (NewTransfersFound gw (t :: ts) chip).
Proof.
  cbn [app]. rewrite transfer_lines_cons. do 3 rewrite join_cons.
  rewrite <- transfer_lines_cons, transfer_lines_shown, chip_shown.
  unfold format_outcome, head_new_transfers, line_chip, str_of_int, shown_period.
  rewrite !append_assoc. reflexivity.
Qed.

End Messages.

(** ** Loading the state file *)

Section Loading.

Lemma has_key_lookup (key : string) (members : list (string * json)) :
  has_key key (JObj members) = true <-> is_Some (dict_lookup key members).
Proof. unfold has_key. apply bool_decide_eq_true. Qed.

Lemma loads_as_functional (f : file_status) (r1 r2 : result json) :
  loads_as f r1 -> loads_as f r2 -> r1 = r2.
Proof.
  intros H1 H2; inversion H1; subst; inversion H2; subst;
    try reflexivity; try discriminate;
    repeat match goal with
           | H : _ \/ _ |- _ => destruct H
           | H : is_Some _ |- _ => destruct H
           | H : forall members, JObj _ <> JObj members |- _ =>
               by destruct (H _)
           end; congruence.
Qed.

(** [load_state] leaves the world as it is, and answers as [loads_as]
    has it. *)
Lemma load_state_loads_as (w : world) :
  exists r, load_state w = (r, w) /\ loads_as (state_file w) r.
Proof.
  unfold load_state. destruct (state_file w) as [| |data| |e].
  - eexists; split; [reflexivity | constructor].
  - eexists; split; [reflexivity | constructor].
  - destruct data as [|b|n|f|s|items|members];
      try (eexists; split; [reflexivity | by apply loads_legacy]).
    cbn [is_dict andb].
    destruct (has_key "gameweek" (JObj members)) eqn:Hg;
      [destruct (has_key "transfers" (JObj members)) eqn:Ht|]; cbn [andb].
    + eexists; split; [reflexivity|].
      apply loads_stored; by apply has_key_lookup.
    + eexists; split; [reflexivity|].
      apply loads_missing_key. right.
      apply eq_None_not_Some. rewrite <- has_key_lookup, Ht. discriminate.
    + eexists; split; [reflexivity|].
      apply loads_missing_key. left.
      apply eq_None_not_Some. rewrite <- has_key_lookup, Hg. discriminate.
  - eexists; split; [reflexivity | constructor].
  - eexists; split; [reflexivity | constructor].
Qed.

(** C7, as the code has it. [load_state] never touches the world, and
    its answer is the one the relation [loads_as] gives for the content
    of the file: the empty state when the file is absent or its text is
    no JSON document, when the document is not a dictionary, or when it
    lacks the [gameweek] or the [transfers] key; the stored document
    itself when it is a dictionary with both keys; and an exception,
    not the empty state, when the file is there and cannot be read
    ([OSError]) or when reading or parsing it fails in another way than
    with [JSONDecodeError] (undecodable bytes, a number of more than
    4300 digits, nesting too deep). *)
Theorem load_state_spec (w w' : world) (r : result json) :
  load_state w = (r, w') <-> w' = w /\ loads_as (state_file w) r.
Proof.
  destruct (load_state_loads_as w) as (r0 & Hload & Hr0). rewrite Hload. split.
  - intros [= <- <-]. by split.
  - intros [-> Hr]. by rewrite (loads_as_functional _ _ _ Hr Hr0).
Qed.

Lemma readable_iff (w : world) :
  readable w <->
  state_file w <> FileUnreadable /\ forall e, state_file w <> FileRejected e.
Proof.
  unfold readable, persisted, load_state.
  destruct (state_file w) as [| |data| |e].
  - by split.
  - by split.
  - destruct (is_dict data && has_key "gameweek" data && has_key "transfers" data);
      by split.
  - split; [discriminate | by intros [? _]].
  - split; [discriminate | intros [_ H]; by destruct (H e)].
Qed.

(** [load_state] returns the baseline, or raises and leaves the world. *)
Lemma load_state_cases (w : world) :
  readable w \/ exists e, load_state w = (Raised e, w).
Proof.
  unfold readable, persisted, load_state.
  destruct (state_file w) as [| |data| |e]; try by left.
  - left. by destruct (is_dict data && has_key "gameweek" data && has_key "transfers" data).
  - right. by eexists.
  - right. by eexists.
Qed.

Lemma raised_not_readable (w : world) (e : exn) :
  load_state w = (Raised e, w) -> ~ readable w.
Proof. unfold readable. intros -> H. discriminate. Qed.

Lemma raised_persisted (w : world) (e : exn) :
  load_state w = (Raised e, w) -> persisted w = default_state.
Proof. unfold persisted. by intros ->. Qed.

(** A store whose persisted period is an integer can be read. *)
Lemma int_ne_false_readable (w : world) (gw : Z) :
  int_ne gw (dict_get "gameweek" (persisted w) JNull) = false -> readable w.
Proof.
  intros Hne. destruct (load_state_cases w) as [H|[e H]]; [exact H|].
  rewrite (raised_persisted w e H) in Hne. discriminate.
Qed.

Lemma readable_overwritten (w : world) (content : file_status) :
  readable w -> overwritten content (state_file w) = content.
Proof.
  intros [H _]%readable_iff. by destruct (state_file w).
Qed.

End Loading.

(** ** Writing the state file *)

Section Saving.

(** On a file that can be read, [save_state] leaves [written] when it
    succeeds and [unwritten] when it fails. *)
Lemma save_state_readable (gw : Z) (ts : list transfer) (w : world) :
  readable w ->
  save_state gw ts w =
    if store_writable w then (Returned (), written gw ts w)
    else (Raised OSError, unwritten gw ts w).
Proof.
  intros Hr. unfold save_state, unwritten, written.
  rewrite (readable_overwritten w (FileDoc _) Hr).
  rewrite (readable_overwritten w FileUnparseable Hr).
  destruct (store_writable w); [reflexivity|].
  destruct (failed_write w) eqn:E; rewrite ?E; reflexivity.
Qed.

Lemma state_doc_baseline (gw : Z) (ts : list transfer) :
  state_doc gw ts = baseline_doc gw ts.
Proof. reflexivity. Qed.

Lemma unwritten_state_file (gw : Z) (ts : list transfer) (w : world) :
  state_file (unwritten gw ts w) = left_by_failed_write gw ts w.
Proof. unfold unwritten, left_by_failed_write. by destruct (failed_write w). Qed.

Lemma unwritten_store_writable (gw : Z) (ts : list transfer) (w : world) :
  store_writable (unwritten gw ts w) = store_writable w.
Proof. unfold unwritten. by destruct (failed_write w). Qed.

Lemma readable_written (gw : Z) (ts : list transfer) (w : world) :
  readable (written gw ts w).
Proof. reflexivity. Qed.

Lemma readable_unwritten (gw : Z) (ts : list transfer) (w : world) :
  readable w -> readable (unwritten gw ts w).
Proof. unfold unwritten. by destruct (failed_write w). Qed.

End Saving.

(** ** One check, branch by branch *)

Section Branches.

Context (seed : set_order).

Lemma check_login_failed (obs : observation) (w : world) :
  login_ok obs = false ->
  check_for_new_transfers seed obs w = (answer LoginFailed, w).
Proof. intros H. unfold check_for_new_transfers. rewrite H. reflexivity. Qed.

Lemma check_extraction_failed (obs : observation) (w : world) :
  login_ok obs = true -> gameweek obs = None ->
  check_for_new_transfers seed obs w = (answer ExtractionFailed, w).
Proof.
  intros H1 H2. unfold check_for_new_transfers. rewrite H1, H2. reflexivity.
Qed.

Lemma check_bad_token (obs : observation) (w : world) (token : string) :
  login_ok obs = true -> gameweek obs = Some token -> int_of_str token = None ->
  check_for_new_transfers seed obs w = (Raised ValueError, w).
Proof.
  intros H1 H2 H3. unfold check_for_new_transfers.
  rewrite H1, H2. cbn [negb]. unfold mbind, M_bind, lift. rewrite H3. reflexivity.
Qed.

(** [load_state] raises: so does the check, before anything is written. *)
Lemma check_load_raised (obs : observation) (w : world) (gw : Z) (e : exn) :
  observed obs gw ->
  load_state w = (Raised e, w) ->
  check_for_new_transfers seed obs w = (Raised e, w).
Proof.
  intros (Hlogin & token & Htok & Hint) Hload. unfold check_for_new_transfers.
  rewrite Hlogin, Htok. cbn [negb]. unfold mbind, M_bind, lift.
  rewrite Hint. cbn [or_raise]. rewrite Hload. reflexivity.
Qed.

Lemma answer_rollover (gw : Z) (ts : list transfer) (chip : option string) :
  answer (PeriodRolledOver gw ts chip) =
    match ts with
    | [] => Returned (msg_gameweek_updated gw, false)
    | _ =>
        Returned
          (join nl ([head_first_transfers gw;
                     line_chip (escape_markdown (chip_or_none chip))]
                    ++ transfer_lines ts)%list, true)
    end.
Proof.
  unfold answer. rewrite <- message_rollover. by destruct ts.
Qed.

(** Case 1 of the source: the gameweek has changed. *)
Lemma check_rollover (obs : observation) (w : world) (gw : Z) :
  observed obs gw ->
  readable w ->
  int_ne gw (dict_get "gameweek" (persisted w) JNull) = true ->
  check_for_new_transfers seed obs w =
    if store_writable w
    then (answer (PeriodRolledOver gw (scraped_transfers obs) (active_chip obs)),
          written gw (scraped_transfers obs) w)
    else (Raised OSError, unwritten gw (scraped_transfers obs) w).
Proof.
  intros (Hlogin & token & Htok & Hint) Hread Hne. unfold check_for_new_transfers.
  rewrite Hlogin, Htok. cbn [negb]. unfold mbind, M_bind, lift.
  rewrite Hint. cbn [or_raise]. rewrite Hread, Hne.
  rewrite (save_state_readable _ _ _ Hread).
  destruct (store_writable w) eqn:Hw; [|reflexivity].
  rewrite answer_rollover.
  destruct (scraped_transfers obs); reflexivity.
Qed.

(** Case 2 of the source: same gameweek. *)
Lemma check_same_period (obs : observation) (w : world) (gw : Z) :
  observed obs gw ->
  readable w ->
  int_ne gw (dict_get "gameweek" (persisted w) JNull) = false ->
  check_for_new_transfers seed obs w =
    match seen_set_of (dict_get "transfers" (persisted w) (JArr [])) with
    | Raised e => (Raised e, w)
    | Returned seen_set =>
        if decide (pairs_of obs ∖ seen_set = ∅)
        then (answer (NoNewTransfers gw), w)
        else if store_writable w
        then (answer (NewTransfersFound gw (set_iter seed (pairs_of obs ∖ seen_set))
                        (active_chip obs)),
              written gw (scraped_transfers obs) w)
        else (Raised OSError, unwritten gw (scraped_transfers obs) w)
    end.
Proof.
  intros (Hlogin & token & Htok & Hint) Hread Hne. unfold check_for_new_transfers.
  rewrite Hlogin, Htok. cbn [negb]. unfold mbind, M_bind, lift.
  rewrite Hint. cbn [or_raise]. rewrite Hread, Hne.
  destruct (seen_set_of _) as [seen_set|e]; [|reflexivity].
  fold (pairs_of obs). destruct (decide _) as [Hd|Hd]; [reflexivity|].
  rewrite (save_state_readable _ _ _ Hread).
  destruct (store_writable w) eqn:Hw; [|reflexivity].
  destruct (set_iter seed (pairs_of obs ∖ seen_set)) as [|t ts] eqn:Eiter.
  - exfalso. apply Hd. apply leibniz_equiv, elements_empty_inv.
    apply Permutation_nil_r. rewrite <- Eiter. symmetry. apply set_iter_perm.
  - unfold answer. by rewrite <- message_new_transfers.
Qed.

End Branches.

(** ** The baseline as [save_state] writes it *)

Section Baseline.

Lemma result_map_transfer_json (ts : list transfer) :
  result_map hashed_tuple (transfer_json <$> ts) =
    Returned ((fun t => [JStr t.1; JStr t.2]) <$> ts).
Proof.
  induction ts as [|t ts IH]; [reflexivity|].
  cbn [fmap list_fmap result_map]. unfold mbind at 1, result_bind.
  cbn [hashed_tuple transfer_json py_iter mbind result_bind forallb hashable andb].
  fold (@fmap list _ _ _ transfer_json ts). rewrite IH. reflexivity.
Qed.

Lemma omap_as_transfer (ts : list transfer) :
  omap as_transfer ((fun t => [JStr t.1; JStr t.2]) <$> ts) = ts.
Proof.
  induction ts as [|[p_out p_in] ts IH]; [reflexivity|].
  cbn. f_equal. exact IH.
Qed.

Lemma seen_set_of_saved (ts : list transfer) :
  seen_set_of (JArr (transfer_json <$> ts)) = Returned (list_to_set ts).
Proof.
  unfold seen_set_of. cbn [py_iter mbind result_bind].
  rewrite result_map_transfer_json. cbn [mbind result_bind mret result_ret].
  by rewrite omap_as_transfer.
Qed.

Lemma seen_set_of_pairs (ts : list transfer) :
  seen_set_of (JArr (pair_doc <$> ts)) = Returned (list_to_set ts).
Proof. apply seen_set_of_saved. Qed.

Lemma persisted_written (gw : Z) (ts : list transfer) (w : world) :
  persisted (written gw ts w) = state_doc gw ts.
Proof. reflexivity. Qed.

Lemma persisted_period_written (gw : Z) (ts : list transfer) (w : world) :
  persisted_period (written gw ts w) (Some gw).
Proof. by split. Qed.

Lemma persisted_transfers_written (gw : Z) (ts : list transfer) (w : world) :
  persisted_transfers (written gw ts w) ts.
Proof. by split. Qed.

Lemma persisted_pairs_transfers (w : world) (ts : list transfer) :
  persisted_transfers w ts -> persisted_pairs w = list_to_set ts.
Proof.
  unfold persisted_transfers, persisted_pairs. intros [_ ->].
  by rewrite seen_set_of_pairs.
Qed.

Lemma int_ne_same (gw : Z) : int_ne gw (JInt gw) = false.
Proof. cbn. by rewrite Z.eqb_refl. Qed.


Lemma set_iter_empty (seed : set_order) (s : gset transfer) :
  set_iter seed s = [] <-> s = ∅.
Proof.
  split.
  - intros H. apply leibniz_equiv, elements_empty_inv.
    apply Permutation_nil_r. rewrite <- H. symmetry. apply set_iter_perm.
  - intros ->. apply Permutation_nil_r. rewrite set_iter_perm.
    by rewrite elements_empty.
Qed.

Lemma same_period_outcome_iter (seed : set_order) (gw : Z) (chip : option string)
    (s : gset transfer) :
  same_period_outcome gw chip (set_iter seed s) =
    if decide (s = ∅) then NoNewTransfers gw
    else NewTransfersFound gw (set_iter seed s) chip.
Proof.
  unfold same_period_outcome. destruct (decide (s = ∅)) as [->|Hne].
  - by rewrite (proj2 (set_iter_empty seed ∅) eq_refl).
  - destruct (set_iter seed s) eqn:E; [|reflexivity].
    by apply set_iter_empty in E.
Qed.

Lemma difference_empty_subseteq (a b : gset transfer) : a ∖ b = ∅ <-> a ⊆ b.
Proof.
  split; [|set_solver].
  intros Hd t Ht. destruct (decide (t ∈ b)) as [|Hn]; [done|].
  assert (Hin : t ∈ a ∖ b) by set_solver. rewrite Hd in Hin. set_solver.
Qed.

End Baseline.

(** ** Reconciliation *)

Section Reconciliation.

Context (seed : set_order).

(** A check of the persisted period, from a baseline whose pairs are
    stored as lists of two names. *)
Lemma check_in_period (obs : observation) (w : world) (gw : Z)
    (saved : list transfer) :
  observed obs gw ->
  persisted_period w (Some gw) ->
  persisted_transfers w saved ->
  let delta : gset transfer := pairs_of obs ∖ list_to_set saved in
  check_for_new_transfers seed obs w =
    if decide (delta = ∅) then (answer (NoNewTransfers gw), w)
    else if store_writable w
    then (answer (NewTransfersFound gw (set_iter seed delta) (active_chip obs)),
          written gw (scraped_transfers obs) w)
    else (Raised OSError, unwritten gw (scraped_transfers obs) w).
Proof.
  intros Hobs [Hread Hper] [_ Htr] delta.
  rewrite (check_same_period seed obs w gw Hobs Hread)
    by (rewrite Hper; apply int_ne_same).
  by rewrite Htr, seen_set_of_pairs.
Qed.

(** C1, as the code has it. When the snapshot's period is the persisted
    one and the persisted pairs are stored as lists of two names: if no
    pair of the snapshot is missing from the persisted pairs, the check
    answers [NoNewTransfers], not noteworthy, and leaves the world as it
    was. If some are missing and the state write succeeds, it answers
    [NewTransfersFound] listing exactly the missing pairs, noteworthy,
    and the state file holds the period with the whole pair list of the
    snapshot. If some are missing and the state write fails, the check
    raises [OSError] and answers nothing; the file is then as the failed
    write left it. *)
Theorem same_period_check (obs : observation) (w : world) (gw : Z)
    (saved : list transfer) :
  observed obs gw ->
  persisted_period w (Some gw) ->
  persisted_transfers w saved ->
  let delta : gset transfer := pairs_of obs ∖ list_to_set saved in
  (delta = ∅ ->
     check_for_new_transfers seed obs w = (answer (NoNewTransfers gw), w) /\
     noteworthy (NoNewTransfers gw) = false) /\
  (delta <> ∅ -> store_writable w = true ->
     exists newPairs w',
       newPairs ≡ₚ elements delta /\
       check_for_new_transfers seed obs w =
         (answer (NewTransfersFound gw newPairs (active_chip obs)), w') /\
       noteworthy (NewTransfersFound gw newPairs (active_chip obs)) = true /\
       state_file w' = FileDoc (baseline_doc gw (scraped_transfers obs)) /\
       write_log w' =
         (write_log w ++ [baseline_doc gw (scraped_transfers obs)])%list) /\
  (delta <> ∅ -> store_writable w = false ->
     exists w',
       check_for_new_transfers seed obs w = (Raised OSError, w') /\
       state_file w' = left_by_failed_write gw (scraped_transfers obs) w).
Proof.
  intros Hobs Hper Htr delta.
  pose proof (check_in_period obs w gw saved Hobs Hper Htr) as Hcheck.
  cbn zeta in Hcheck. fold delta in Hcheck.
  split; [|split].
  - intros Hd. rewrite decide_True in Hcheck by exact Hd. by split.
  - intros Hd Hw. rewrite decide_False, Hw in Hcheck by exact Hd.
    exists (set_iter seed delta), (written gw (scraped_transfers obs) w).
    split; [apply set_iter_perm|]. split; [exact Hcheck|]. by split.
  - intros Hd Hw. rewrite decide_False, Hw in Hcheck by exact Hd.
    eexists. split; [exact Hcheck|]. apply unwritten_state_file.
Qed.


End Reconciliation.

(** ** Every branch at once *)

(** Splits a goal along the branches [check_for_new_transfers] can take,
    leaving the equation of the branch as [Hcheck]. *)
Ltac check_branches seed obs w :=
  let Hlogin := fresh "Hlogin" in
  let Htok := fresh "Htok" in
  let Hint := fresh "Hint" in
  let Hobs := fresh "Hobs" in
  let Hread := fresh "Hread" in
  let Hload := fresh "Hload" in
  let Hne := fresh "Hne" in
  let token := fresh "token" in
  let gw := fresh "gw" in
  let e := fresh "e" in
  destruct (login_ok obs) eqn:Hlogin;
  [ destruct (gameweek obs) as [token|] eqn:Htok;
    [ destruct (int_of_str token) as [gw|] eqn:Hint;
      [ assert (Hobs : observed obs gw) by (split; [done | by exists token]);
        destruct (load_state_cases w) as [Hread|[e Hload]];
        [ destruct (int_ne gw (dict_get "gameweek" (persisted w) JNull)) eqn:Hne;
          [ pose proof (check_rollover seed obs w gw Hobs Hread Hne) as Hcheck
          | pose proof (check_same_period seed obs w gw Hobs Hread Hne) as Hcheck ]
        | pose proof (check_load_raised seed obs w gw e Hobs Hload) as Hcheck ]
      | pose proof (check_bad_token seed obs w token Hlogin Htok Hint) as Hcheck ]
    | pose proof (check_extraction_failed seed obs w Hlogin Htok) as Hcheck ]
  | pose proof (check_login_failed seed obs w Hlogin) as Hcheck ].

Section Invocation.

Context (seed : set_order).

(** Right after a write, the same snapshot brings nothing new. *)
Lemma check_after_write (obs : observation) (w : world) (gw : Z) :
  observed obs gw ->
  let w' := written gw (scraped_transfers obs) w in
  check_for_new_transfers seed obs w' = (answer (NoNewTransfers gw), w').
Proof.
  intros Hobs w'.
  rewrite (check_in_period seed obs w' gw (scraped_transfers obs) Hobs)
    by apply persisted_period_written || apply persisted_transfers_written.
  fold (pairs_of obs). by rewrite decide_True by apply difference_diag_L.
Qed.

(** Once a check has returned, the same snapshot has nothing left to
    announce. *)
Lemma settled_after_check (obs : observation) (w w1 : world) (out : string * bool) :
  check_for_new_transfers seed obs w = (Returned out, w1) ->
  exists message,
    check_for_new_transfers seed obs w1 = (Returned (message, false), w1).
Proof.
  intros H. check_branches seed obs w; rewrite Hcheck in H.
  - destruct (store_writable w); [|discriminate].
    injection H as _ <-. eexists. apply (check_after_write obs w gw Hobs).
  - destruct (seen_set_of _) as [seen_set|e]; [|discriminate].
    destruct (decide _) as [Hd|Hd].
    + injection H as _ <-. rewrite Hcheck. by eexists.
    + destruct (store_writable w); [|discriminate].
      injection H as _ <-. eexists. apply (check_after_write obs w gw Hobs).
  - discriminate.
  - discriminate.
  - injection H as _ <-. rewrite Hcheck. by eexists.
  - injection H as _ <-. rewrite Hcheck. by eexists.
Qed.


(** C5. When the login fails, or the period cannot be found on the page,
    the check answers the matching failure outcome, not noteworthy, and
    the world is left exactly as it was: the state file is the same and
    nothing is added to the log of writes, so any later check behaves as
    if this one had not happened. *)
Theorem failed_check_leaves_state (obs : observation) (w : world) :
  login_ok obs = false \/ gameweek obs = None ->
  let o := if login_ok obs then ExtractionFailed else LoginFailed in
  check_for_new_transfers seed obs w = (answer o, w) /\
  noteworthy o = false /\
  forall next,
    check_for_new_transfers seed next (check_for_new_transfers seed obs w).2
    = check_for_new_transfers seed next w.
Proof.
  intros H o.
  assert (Hcheck : check_for_new_transfers seed obs w = (answer o, w)).
  { unfold o. destruct (login_ok obs) eqn:Hlogin.
    - destruct H as [H|H]; [discriminate|].
      by apply check_extraction_failed.
    - by apply check_login_failed. }
  split; [exact Hcheck|]. split; [unfold o; by destruct (login_ok obs)|].
  intros next. by rewrite Hcheck.
Qed.

(** What one check can do to the world: nothing, one [save_state] of an
    integer gameweek with the pair list of the snapshot, or the failure
    of such a write. *)
Lemma check_world (obs : observation) (w : world) :
  (check_for_new_transfers seed obs w).2 = w \/
  exists gw,
    observed obs gw /\ readable w /\
    ((store_writable w = true /\
      (check_for_new_transfers seed obs w).2 = written gw (scraped_transfers obs) w) \/
     (store_writable w = false /\
      (check_for_new_transfers seed obs w).1 = Raised OSError /\
      (check_for_new_transfers seed obs w).2 = unwritten gw (scraped_transfers obs) w)).
Proof.
  check_branches seed obs w; rewrite Hcheck; try by left.
  - right. exists gw. split; [done|]. split; [done|].
    destruct (store_writable w); [by left | by right].
  - destruct (seen_set_of _); [|by left].
    destruct (decide _); [by left|].
    right. exists gw. split; [done|]. split; [done|].
    destruct (store_writable w); [by left | by right].
Qed.

End Invocation.

(** ** Successive checks within one period *)

Section History.

Context (seed : set_order) (gw : Z).

Lemma world_after_cons (obs : observation) (rest : list observation) (w : world) :
  world_after seed (obs :: rest) w
  = world_after seed rest (check_for_new_transfers seed obs w).2.
Proof.
  unfold world_after. cbn [run_checks].
  destruct (check_for_new_transfers seed obs w) as [r w1].
  destruct (run_checks seed rest w1) as [rs w2] eqn:E.
  cbn. by rewrite E.
Qed.

Lemma world_after_nil (w : world) : world_after seed [] w = w.
Proof. reflexivity. Qed.

Lemma seen_so_far_cons (base : gset transfer) (obs : observation)
    (rest : list observation) :
  seen_so_far base (obs :: rest) = seen_so_far (base ∪ pairs_of obs) rest.
Proof.
  unfold seen_so_far. cbn [fmap list_fmap union_list].
  fold (@fmap list _ _ _ pairs_of rest). set_solver.
Qed.

Lemma never_drops_app (seen : gset transfer) (earlier later : list observation) :
  never_drops seen (earlier ++ later) -> never_drops seen earlier.
Proof.
  revert seen. induction earlier as [|obs earlier IH]; intros seen; [done|].
  cbn. intros [H1 H2]. split; [exact H1 | by apply IH].
Qed.

(** One check of the persisted period with a write that succeeds: the
    answer lists the pairs that the baseline lacks, and the baseline
    stays as it is when there are none, and becomes the pairs of the
    snapshot otherwise. *)
Lemma check_step (obs : observation) (w : world) (saved : list transfer) :
  observed obs gw ->
  persisted_period w (Some gw) ->
  persisted_transfers w saved ->
  store_writable w = true ->
  let r := check_for_new_transfers seed obs w in
  r.1 = answer (same_period_outcome gw (active_chip obs)
                  (set_iter seed (pairs_of obs ∖ list_to_set saved))) /\
  persisted_period r.2 (Some gw) /\
  store_writable r.2 = true /\
  exists saved',
    persisted_transfers r.2 saved' /\
    list_to_set saved' =@{gset transfer}
      if decide (pairs_of obs ⊆ list_to_set saved)
      then list_to_set saved else pairs_of obs.
Proof.
  intros Hobs Hper Htr Hw r. unfold r.
  rewrite (check_in_period seed obs w gw saved Hobs Hper Htr), Hw.
  rewrite same_period_outcome_iter.
  destruct (decide (pairs_of obs ∖ list_to_set saved = ∅)) as [Hd|Hd].
  - split; [reflexivity|]. split; [exact Hper|]. split; [exact Hw|].
    exists saved. split; [exact Htr|].
    by rewrite decide_True by by apply difference_empty_subseteq.
  - split; [reflexivity|]. split; [apply persisted_period_written|].
    split; [exact Hw|]. exists (scraped_transfers obs).
    split; [apply persisted_transfers_written|].
    rewrite decide_False; [reflexivity|].
    by rewrite <- difference_empty_subseteq.
Qed.

(** While no snapshot drops a pair, the baseline after a run is the
    persisted period with everything seen so far. *)
Lemma run_kept (snapshots : list observation) :
  forall (w : world) (saved : list transfer),
    persisted_period w (Some gw) ->
    persisted_transfers w saved ->
    store_writable w = true ->
    Forall (fun obs => observed obs gw) snapshots ->
    never_drops (list_to_set saved) snapshots ->
    let w' := world_after seed snapshots w in
    persisted_period w' (Some gw) /\
    store_writable w' = true /\
    exists saved',
      persisted_transfers w' saved' /\
      list_to_set saved' =@{gset transfer} seen_so_far (list_to_set saved) snapshots.
Proof.
  induction snapshots as [|obs rest IH]; intros w saved Hper Htr Hw Hall Hnd.
  - cbn. split; [done|]. split; [done|]. exists saved. split; [done|].
    unfold seen_so_far. cbn. set_solver.
  - apply Forall_cons in Hall as [Hobs Hall]. destruct Hnd as [Hor Hnd].
    cbn zeta. rewrite world_after_cons, seen_so_far_cons.
    destruct (check_step obs w saved Hobs Hper Htr Hw)
      as (_ & Hper1 & Hw1 & saved1 & Htr1 & Hsaved1).
    assert (Heq : list_to_set saved1 =@{gset transfer}
                  list_to_set saved ∪ pairs_of obs).
    { rewrite Hsaved1. destruct (decide _) as [Hsub|Hsub]; [set_solver|].
      destruct Hor as [Hor|Hor]; [contradiction | set_solver]. }
    rewrite <- Heq in Hnd |- *.
    exact (IH _ saved1 Hper1 Htr1 Hw1 Hall Hnd).
Qed.

Lemma kept_never_drops (snapshots : list observation) :
  forall (w : world) (saved : list transfer),
    persisted_period w (Some gw) ->
    persisted_transfers w saved ->
    store_writable w = true ->
    Forall (fun obs => observed obs gw) snapshots ->
    history_kept seed w snapshots ->
    never_drops (list_to_set saved) snapshots.
Proof.
  induction snapshots as [|obs rest IH]; intros w saved Hper Htr Hw Hall Hkept;
    [done|].
  apply Forall_cons in Hall as [Hobs Hall].
  destruct (check_step obs w saved Hobs Hper Htr Hw)
    as (_ & Hper1 & Hw1 & saved1 & Htr1 & Hsaved1).
  assert (Hone : list_to_set saved ∪ pairs_of obs
                 ⊆ (list_to_set saved1 : gset transfer)).
  { specialize (Hkept 1%nat). cbn [take] in Hkept.
    rewrite world_after_cons, world_after_nil in Hkept.
    rewrite (persisted_pairs_transfers _ _ Htr) in Hkept.
    rewrite (persisted_pairs_transfers _ _ Htr1) in Hkept.
    unfold seen_so_far in Hkept. cbn in Hkept. set_solver. }
  assert (Heq : list_to_set saved1 =@{gset transfer}
                list_to_set saved ∪ pairs_of obs).
  { rewrite Hsaved1 in Hone |- *. destruct (decide _); set_solver. }
  cbn [never_drops]. split.
  - rewrite Hsaved1 in Heq. destruct (decide _) as [Hsub|Hsub]; [by left|].
    right. set_solver.
  - rewrite <- Heq. apply (IH _ saved1 Hper1 Htr1 Hw1 Hall).
    intros k. specialize (Hkept (S k)). cbn [take] in Hkept.
    rewrite world_after_cons, seen_so_far_cons in Hkept.
    rewrite (persisted_pairs_transfers _ _ Htr) in Hkept.
    rewrite (persisted_pairs_transfers _ _ Htr1). by rewrite Heq.
Qed.

(** C3, as the code has it. In a run of checks within one period, from a
    baseline whose pairs are stored as lists of two names and with
    every state write succeeding, the persisted pair set holds at every
    point each pair seen so far (those of the starting baseline and of
    the snapshots checked) exactly when no snapshot brings a new pair
    while lacking one seen before. In such a run each check lists as new
    exactly the pairs of its snapshot that were not seen before: no pair
    is listed twice. *)
Theorem history_kept_iff_never_drops (w : world) (saved : list transfer)
    (snapshots : list observation) :
  persisted_period w (Some gw) ->
  persisted_transfers w saved ->
  store_writable w = true ->
  Forall (fun obs => observed obs gw) snapshots ->
  (history_kept seed w snapshots <-> never_drops (list_to_set saved) snapshots) /\
  (never_drops (list_to_set saved) snapshots ->
   forall earlier obs later,
     snapshots = (earlier ++ obs :: later)%list ->
     (check_for_new_transfers seed obs (world_after seed earlier w)).1 =
       answer
         (same_period_outcome gw (active_chip obs)
            (set_iter seed
               (pairs_of obs ∖ seen_so_far (list_to_set saved) earlier)))).
Proof.
  intros Hper Htr Hw Hall. split; [split|].
  - by apply kept_never_drops.
  - intros Hnd k.
    assert (Hnd' : never_drops (list_to_set saved) (take k snapshots)).
    { apply (never_drops_app _ _ (drop k snapshots)). by rewrite take_drop. }
    destruct (run_kept (take k snapshots) w saved Hper Htr Hw
                (Forall_take _ k _ Hall) Hnd')
      as (_ & _ & saved' & H3 & H4).
    rewrite (persisted_pairs_transfers _ _ Htr).
    by rewrite (persisted_pairs_transfers _ _ H3), H4.
  - intros Hnd earlier obs later ->.
    apply Forall_app in Hall as [Hall1 Hall2].
    apply Forall_cons in Hall2 as [Hobs _].
    destruct (run_kept earlier w saved Hper Htr Hw Hall1
                (never_drops_app _ _ _ Hnd))
      as (H1 & H2 & saved' & H3 & H4).
    destruct (check_step obs _ saved' Hobs H1 H3 H2) as [Hr _].
    cbn zeta in Hr. by rewrite Hr, H4.
Qed.

End History.

(** ** Reading a period token: [int] on a run of decimal digits *)

Section Integers.

(** *** The digits of the Unicode database *)

Lemma unicode_decimal_range (cp : N) (d : Z) :
  unicode_decimal cp = Some d ->
  exists zero,
    zero ∈ decimal_zeros /\ (zero <= cp < zero + 10)%N /\ d = Z.of_N (cp - zero).
Proof.
  unfold unicode_decimal.
  destruct (find _ decimal_zeros) as [zero|] eqn:E; [|discriminate].
  intros [= <-]. apply find_some in E as [Hin Hp].
  exists zero. split; [by apply list_elem_of_In|].
  apply andb_true_iff in Hp as [H1%N.leb_le H2%N.ltb_lt]. done.
Qed.

Lemma unicode_decimal_bounds (cp : N) (d : Z) :
  unicode_decimal cp = Some d -> 0 <= d <= 9.
Proof. intros (zero & _ & Hr & ->)%unicode_decimal_range. lia. Qed.

(** The only digits below 127 are the ASCII ones. *)
Lemma decimal_zeros_ascii :
  Forall (fun zero => zero = 48 \/ 127 <= zero)%N decimal_zeros.
Proof. apply (bool_decide_unpack _). vm_compute. exact I. Qed.

(** No digit is a blank. *)
Lemma decimal_zeros_spaces :
  Forall (fun zero => Forall (fun s => s < zero \/ zero + 10 <= s)%N unicode_spaces)
    decimal_zeros.
Proof. apply (bool_decide_unpack _). vm_compute. exact I. Qed.

Lemma unicode_decimal_ascii (cp : N) (d : Z) :
  unicode_decimal cp = Some d -> (cp < 127)%N -> cp = (48 + Z.to_N d)%N.
Proof.
  intros (zero & Hin & Hr & ->)%unicode_decimal_range Hlt.
  pose proof (proj1 (Forall_forall _ _) decimal_zeros_ascii zero Hin) as [->|H];
    lia.
Qed.

Lemma unicode_decimal_not_space (cp : N) (d : Z) :
  unicode_decimal cp = Some d -> unicode_space cp = false.
Proof.
  intros (zero & Hin & Hr & ->)%unicode_decimal_range.
  destruct (unicode_space cp) eqn:E; [|reflexivity].
  unfold unicode_space in E. apply existsb_exists in E as (s & Hs & Heq).
  apply N.eqb_eq in Heq. subst s.
  pose proof (proj1 (Forall_forall _ _) decimal_zeros_spaces zero Hin) as Hall.
  pose proof (proj1 (Forall_forall _ _) Hall cp (proj2 (list_elem_of_In _ _) Hs))
    as Hcp.
  cbn beta in Hcp. lia.
Qed.

(** *** The ASCII numeral *)

Lemma digit_cases (d : Z) :
  0 <= d <= 9 ->
  d = 0 \/ d = 1 \/ d = 2 \/ d = 3 \/ d = 4 \/ d = 5 \/ d = 6 \/ d = 7 \/ d = 8 \/ d = 9.
Proof. lia. Qed.

Lemma ascii_digit_facts (d : Z) :
  0 <= d <= 9 ->
  digit_value (ascii_digit d) = Some d /\
  is_space (ascii_digit d) = false /\
  Ascii.eqb (ascii_digit d) "_" = false /\
  Ascii.eqb (ascii_digit d) "+" = false /\
  Ascii.eqb (ascii_digit d) "-" = false.
Proof.
  intros H. apply digit_cases in H.
  repeat (destruct H as [->|H]; [by vm_compute|]). subst d. by vm_compute.
Qed.

Lemma scan_digits_text (digits : list Z) :
  Forall (fun d => 0 <= d <= 9) digits ->
  scan_digits false (digits_text digits) = Some (digits, "").
Proof.
  induction 1 as [|d digits Hd _ IH]; [reflexivity|].
  destruct (ascii_digit_facts d Hd) as (Hv & _ & Hu & _).
  cbn [digits_text scan_digits]. by rewrite Hu, Hv, IH.
Qed.

Lemma long_from_digits (digits : list Z) :
  digits <> [] ->
  Forall (fun d => 0 <= d <= 9) digits ->
  long_from_string (digits_text digits) =
    if max_str_digits <? Z.of_nat (length digits) then None
    else Some (fold_left (fun acc d => 10 * acc + d) digits 0).
Proof.
  intros Hne Hall. pose proof (scan_digits_text digits Hall) as Hscan.
  destruct digits as [|d digits]; [done|].
  apply Forall_cons in Hall as [Hd _].
  destruct (ascii_digit_facts d Hd) as (_ & Hs & Hu & Hp & Hm).
  unfold long_from_string.
  cbn [digits_text skip_spaces] in *. rewrite Hs.
  cbn [starts_with]. rewrite Hp, Hm. cbn [orb starts_with]. rewrite Hu.
  rewrite Hscan. cbn [skip_spaces].
  by destruct (max_str_digits <? Z.of_nat (length (d :: digits))).
Qed.

Lemma positional_snoc (digits : list Z) (d : Z) :
  positional (digits ++ [d]) = 10 * positional digits + d.
Proof. unfold positional. rewrite rev_unit. cbn [least_first]. lia. Qed.

Lemma fold_positional (digits : list Z) :
  fold_left (fun acc d => 10 * acc + d) digits 0 = positional digits.
Proof.
  induction digits as [|d digits IH] using rev_ind; [reflexivity|].
  by rewrite fold_left_app, positional_snoc, IH.
Qed.

Lemma positional_nonneg (digits : list Z) :
  Forall (fun d => 0 <= d <= 9) digits -> 0 <= positional digits.
Proof.
  induction digits as [|d digits IH] using rev_ind; [done|].
  intros [H1 H2]%Forall_app. apply Forall_cons in H2 as [Hd _].
  rewrite positional_snoc. specialize (IH H1). lia.
Qed.

(** *** Characters *)

Lemma continuation_bits_all (n : nat) (acc : N) (bytes : string) (cp : N) :
  continuation_bits n acc bytes = Some cp ->
  forallb is_continuation (list_ascii_of_string bytes) = true.
Proof.
  revert acc bytes. induction n as [|n IH]; intros acc [|c bytes]; cbn;
    try discriminate; [done|].
  destruct (is_continuation c) eqn:E; [|discriminate].
  intros H. cbn. by rewrite (IH _ _ H).
Qed.

Lemma code_point_is_char (char : string) (cp : N) :
  code_point char = Some cp -> is_char char = true.
Proof.
  destruct char as [|c rest]; [discriminate|].
  unfold code_point, is_char.
  assert (Hlead : (N_of_ascii c <? 128)%N = true \/ (N_of_ascii c <? 192)%N = false ->
                  is_continuation c = false).
  { unfold is_continuation. intros [H%N.ltb_lt|H%N.ltb_ge].
    - rewrite (proj2 (N.leb_gt _ _)) by lia. reflexivity.
    - rewrite (proj2 (N.ltb_ge _ _)) by lia. apply andb_false_r. }
  destruct (N_of_ascii c <? 128)%N eqn:E1.
  - rewrite Hlead by by left. by intros ->%continuation_bits_all.
  - destruct (N_of_ascii c <? 192)%N eqn:E2; [discriminate|].
    rewrite Hlead by by right. cbn [negb andb].
    repeat destruct (_ <? _)%N; by intros ->%continuation_bits_all.
Qed.

Lemma char_digit_is_char (char : string) (d : Z) :
  char_digit char = Some d -> is_char char = true.
Proof.
  unfold char_digit. destruct (code_point char) as [cp|] eqn:E; [|discriminate].
  intros _. by apply (code_point_is_char char cp).
Qed.

Lemma char_digit_decimal (char : string) :
  is_decimal_char char = true <-> is_Some (char_digit char).
Proof.
  unfold is_decimal_char, char_digit.
  destruct (code_point char) as [cp|]; [|split; [discriminate | by intros [? ?]]].
  destruct (unicode_decimal cp); split; done.
Qed.

Lemma py_chars_cons (c : ascii) (s : string) :
  py_chars (String c s) =
    match py_chars s with
    | String d t :: rest =>
        if is_continuation d then String c (String d t) :: rest
        else String c "" :: String d t :: rest
    | rest => String c "" :: rest
    end.
Proof. reflexivity. Qed.

(** A character in front of a text whose characters are known. *)
Lemma py_chars_char (tail : string) :
  forall (c : ascii) (s : string) (chars : list string),
    forallb is_continuation (list_ascii_of_string tail) = true ->
    py_chars s = chars ->
    Forall (fun char => is_char char = true) chars ->
    py_chars (String c tail +:+ s) = String c tail :: chars.
Proof.
  induction tail as [|c' tail IH]; intros c s chars Htail Hs Hchars.
  - change (String c "" +:+ s) with (String c s). rewrite py_chars_cons, Hs.
    destruct Hchars as [|[|d t] chars Hd _]; [reflexivity | discriminate |].
    cbn [is_char] in Hd. apply andb_true_iff in Hd as [Hd _].
    apply negb_true_iff in Hd. by rewrite Hd.
  - cbn [list_ascii_of_string forallb] in Htail.
    apply andb_true_iff in Htail as [Hc' Htail].
    rewrite append_cons, py_chars_cons.
    rewrite (IH c' s chars Htail Hs Hchars). by rewrite Hc'.
Qed.

(** The characters of a text put together from characters are these
    characters. *)
Lemma py_chars_concat (chars : list string) :
  Forall (fun char => is_char char = true) chars ->
  py_chars (concat_str chars) = chars.
Proof.
  induction 1 as [|char chars Hchar Hchars IH]; [reflexivity|].
  cbn [concat_str]. destruct char as [|c tail]; [discriminate|].
  cbn [is_char] in Hchar. apply andb_true_iff in Hchar as [_ Htail].
  by apply py_chars_char.
Qed.

(** *** [int] on decimal digits *)

Lemma to_ascii_digits (chars : list string) (digits : list Z) :
  Forall2 (fun char d => char_digit char = Some d) chars digits ->
  decimal_and_space_to_ascii chars = digits_text digits.
Proof.
  induction 1 as [|char d chars digits Hd _ IH]; [reflexivity|].
  cbn [decimal_and_space_to_ascii digits_text]. unfold char_digit in Hd.
  destruct (code_point char) as [cp|]; [|discriminate].
  destruct (cp <? 127)%N eqn:E.
  - apply N.ltb_lt in E. rewrite IH.
    by rewrite (unicode_decimal_ascii cp d Hd E) at 1.
  - by rewrite (unicode_decimal_not_space cp d Hd), Hd, IH.
Qed.

Lemma char_digits_bounds (chars : list string) (digits : list Z) :
  Forall2 (fun char d => char_digit char = Some d) chars digits ->
  Forall (fun d => 0 <= d <= 9) digits.
Proof.
  induction 1 as [|char d chars digits Hd _ IH]; constructor; [|exact IH].
  unfold char_digit in Hd. destruct (code_point char) as [cp|]; [|discriminate].
  by apply (unicode_decimal_bounds cp).
Qed.

(** [int] reads a run of decimal digits, of any script, as its value in
    base ten, and refuses it when it has more than 4300 digits. *)
Lemma int_of_decimal_chars (chars : list string) (digits : list Z) :
  chars <> [] ->
  Forall2 (fun char d => char_digit char = Some d) chars digits ->
  py_chars (concat_str chars) = chars /\
  int_of_str (concat_str chars) =
    if 4300 <? Z.of_nat (length chars) then None else Some (positional digits).
Proof.
  intros Hne Hall.
  assert (Hchars : py_chars (concat_str chars) = chars).
  { apply py_chars_concat. clear Hne.
    induction Hall as [|char d chars digits Hd _ IH]; constructor; [|exact IH].
    by apply (char_digit_is_char char d). }
  split; [exact Hchars|].
  unfold int_of_str. rewrite Hchars, (to_ascii_digits chars digits Hall).
  rewrite long_from_digits.
  - rewrite fold_positional, <- (Forall2_length _ _ _ Hall). reflexivity.
  - destruct Hall; [done | discriminate].
  - by apply (char_digits_bounds chars).
Qed.

(** *** Numerals *)

Lemma written_with_concat (cps : list N) :
  written_with cps = concat_str (utf8 <$> cps).
Proof. induction cps as [|cp cps IH]; [reflexivity|]. cbn. by rewrite IH. Qed.

(** The UTF-8 form of a decimal digit reads back as that digit. *)
Lemma decimal_zeros_utf8 :
  Forall (fun zero =>
            Forall (fun k => code_point (utf8 (zero + k)) = Some (zero + k)%N)
              [0; 1; 2; 3; 4; 5; 6; 7; 8; 9]%N)
    decimal_zeros.
Proof. apply (bool_decide_unpack _). vm_compute. exact I. Qed.

Lemma utf8_digit (cp : N) (d : Z) :
  unicode_decimal cp = Some d -> char_digit (utf8 cp) = Some d.
Proof.
  intros Hd. destruct (unicode_decimal_range cp d Hd) as (zero & Hin & Hr & _).
  pose proof (proj1 (Forall_forall _ _) decimal_zeros_utf8 zero Hin) as Hall.
  assert (Hk : (cp - zero)%N ∈ [0; 1; 2; 3; 4; 5; 6; 7; 8; 9]%N)
    by (rewrite !elem_of_cons, elem_of_nil; lia).
  pose proof (proj1 (Forall_forall _ _) Hall _ Hk) as Hcp.
  cbn beta in Hcp. replace (zero + (cp - zero))%N with cp in Hcp by lia.
  unfold char_digit. by rewrite Hcp.
Qed.

(** [int] on a numeral. *)
Lemma int_of_numeral (token : string) (count : nat) (n : Z) :
  numeral token count n ->
  length (py_chars token) = count /\
  int_of_str token = if 4300 <? Z.of_nat count then None else Some n.
Proof.
  intros (cps & digits & -> & Hall & <- & Hpos & ->).
  assert (Hchars : Forall2 (fun char d => char_digit char = Some d)
                     (utf8 <$> cps) digits).
  { clear Hpos. induction Hall as [|cp d cps digits Hd _ IH]; constructor;
      [by apply utf8_digit | exact IH]. }
  rewrite written_with_concat.
  destruct (int_of_decimal_chars (utf8 <$> cps) digits) as [H1 H2];
    [by destruct cps; [cbn in Hpos; lia|] | exact Hchars |].
  rewrite H1, H2, length_fmap. done.
Qed.

End Integers.

(** ** The period token *)

Section Tokens.

Context (seed : set_order).

Lemma least_first_zero (digits : list Z) :
  least_first (digits ++ [0]) = least_first digits.
Proof. induction digits as [|d digits IH]; [reflexivity|]. cbn. by rewrite IH. Qed.

(** Zeros in front of a numeral change its length, not its value. *)
Lemma numeral_zero_padded (k : nat) (token : string) (count : nat) (n : Z) :
  numeral token count n -> numeral (zero_padded k token) (k + count) n.
Proof.
  intros Hn. induction k as [|k IH]; [exact Hn|].
  destruct IH as (cps & digits & Ht & Hall & Hlen & Hpos & Hval).
  exists (48%N :: cps), (0 :: digits). cbn [zero_padded written_with].
  split; [by rewrite Ht|]. split; [by constructor|].
  split; [cbn; by rewrite Hlen|]. split; [lia|].
  rewrite Hval. unfold positional. cbn [rev]. by rewrite least_first_zero.
Qed.

Lemma check_with_token (obs : observation) (w : world) (token : string) :
  login_ok obs = true ->
  int_of_str token = None ->
  check_for_new_transfers seed (with_token obs token) w = (Raised ValueError, w).
Proof. intros Hlogin Hint. by apply (check_bad_token seed _ w token). Qed.

(** C10, as the code has it. The period token is read as an integer
    before it is compared or stored. Two numerals of the same value, of
    at most 4300 digits each and in the decimal digits of any script,
    give the same check, result and world alike; every document the
    check writes is a dictionary whose [gameweek] field is that
    integer, and the state file is afterwards as it was, or cut short by
    a failed write, or such a document. A numeral of more than 4300
    digits is not read: the check of a logged-in snapshot raises
    [ValueError] and leaves the world as it was. *)
Theorem period_token_read_as_integer (obs : observation) (w : world)
    (token1 token2 : string) (count1 count2 : nat) (gw : Z) :
  numeral token1 count1 gw ->
  numeral token2 count2 gw ->
  ((count1 <= 4300)%nat -> (count2 <= 4300)%nat ->
   check_for_new_transfers seed (with_token obs token1) w
   = check_for_new_transfers seed (with_token obs token2) w /\
   let w' := (check_for_new_transfers seed (with_token obs token1) w).2 in
   exists docs,
     write_log w' = (write_log w ++ docs)%list /\
     Forall (fun doc =>
               exists members,
                 doc = JObj members /\
                 dict_lookup "gameweek" members = Some (JInt gw)) docs /\
     (state_file w' = state_file w \/
      state_file w' = FileUnparseable \/
      exists members,
        state_file w' = FileDoc (JObj members) /\
        dict_lookup "gameweek" members = Some (JInt gw))) /\
  ((4300 < count1)%nat -> login_ok obs = true ->
   check_for_new_transfers seed (with_token obs token1) w = (Raised ValueError, w)).
Proof.
  intros [_ H1]%int_of_numeral [_ H2]%int_of_numeral. split.
  - intros Hc1 Hc2.
    rewrite (proj2 (Z.ltb_ge _ _)) in H1 by lia.
    rewrite (proj2 (Z.ltb_ge _ _)) in H2 by lia. split.
    + unfold check_for_new_transfers, with_token. cbn [login_ok gameweek].
      destruct (login_ok obs); [|reflexivity]. cbn [negb].
      unfold mbind, M_bind, lift. rewrite H1, H2. reflexivity.
    + intros w'. unfold w'.
      destruct (check_world seed (with_token obs token1) w)
        as [->|(gw' & (_ & token & [= <-] & Hint) & _ & Hw)].
      { exists []. rewrite app_nil_r. by repeat split; try left. }
      assert (gw' = gw) as -> by congruence.
      assert (Hdoc : exists members,
                 state_doc gw (scraped_transfers obs) = JObj members /\
                 dict_lookup "gameweek" members = Some (JInt gw))
        by by eexists.
      assert (Hwritten : forall w1,
                 w1 = written gw (scraped_transfers obs) w ->
                 exists docs,
                   write_log w1 = (write_log w ++ docs)%list /\
                   Forall (fun doc =>
                             exists members,
                               doc = JObj members /\
                               dict_lookup "gameweek" members = Some (JInt gw)) docs /\
                   (state_file w1 = state_file w \/
                    state_file w1 = FileUnparseable \/
                    exists members,
                      state_file w1 = FileDoc (JObj members) /\
                      dict_lookup "gameweek" members = Some (JInt gw))).
      { intros w1 ->. eexists [_]. split; [reflexivity|].
        split; [by repeat constructor|]. right. right. by eexists. }
      destruct Hw as [[_ ->]|(_ & _ & ->)]; [by apply Hwritten|].
      cbn [scraped_transfers with_token]. unfold unwritten.
      destruct (failed_write w).
      * exists []. rewrite app_nil_r. by repeat split; try left.
      * exists []. cbn. rewrite app_nil_r. split; [done|]. split; [done|].
        right. by left.
      * by apply Hwritten.
  - intros Hc Hlogin. apply check_with_token; [exact Hlogin|].
    by rewrite (proj2 (Z.ltb_lt _ _)) in H1 by lia.
Qed.

End Tokens.

(** ** The scraper *)

Section Scraper.

Context (strip : string -> string).

Lemma concat_str_app (a b : list string) :
  concat_str (a ++ b) = concat_str a +:+ concat_str b.
Proof.
  induction a as [|x a IH]; [reflexivity|].
  cbn [app concat_str]. by rewrite IH, append_assoc.
Qed.

Lemma concat_py_chars (s : string) : concat_str (py_chars s) = s.
Proof.
  induction s as [|c s IH]; [reflexivity|].
  rewrite py_chars_cons. destruct (py_chars s) as [|[|d t] rest].
  - cbn in IH. by rewrite <- IH.
  - cbn [concat_str] in *. by rewrite <- IH.
  - destruct (is_continuation d); cbn [concat_str] in *;
      rewrite ?append_cons; by rewrite <- IH.
Qed.

Lemma take_decimal_split (chars : list string) :
  exists rest digits,
    chars = (take_decimal chars ++ rest)%list /\
    Forall2 (fun char d => char_digit char = Some d) (take_decimal chars) digits.
Proof.
  induction chars as [|char chars (rest & digits & Hsplit & Hall)].
  - by exists [], [].
  - cbn [take_decimal]. destruct (is_decimal_char char) eqn:E.
    + apply char_digit_decimal in E as [d Hd].
      exists rest, (d :: digits). split; [cbn; by rewrite <- Hsplit|].
      by constructor.
    + by exists (char :: chars), [].
Qed.

Lemma substring_all (u : string) : substring 0 (String.length u) u = u.
Proof. induction u as [|x u IH]; [reflexivity|]. cbn. by rewrite IH. Qed.

Lemma leading_digits_split (u : string) :
  exists post, u = leading_digits u +:+ post.
Proof.
  unfold leading_digits.
  destruct (take_decimal_split (py_chars u)) as (rest & _ & Hsplit & _).
  exists (concat_str rest).
  by rewrite <- concat_str_app, <- Hsplit, concat_py_chars.
Qed.

(** What a match of [Gameweek (\d+)] captures: a run of decimal digits
    that is not empty, and that [int] reads unless it is too long. *)
Lemma leading_digits_reads (u : string) :
  leading_digits u <> "" ->
  exists digits,
    py_chars (leading_digits u) <> [] /\
    Forall2 (fun char d => char_digit char = Some d)
      (py_chars (leading_digits u)) digits /\
    int_of_str (leading_digits u) =
      if 4300 <? Z.of_nat (length (py_chars (leading_digits u))) then None
      else Some (positional digits).
Proof.
  unfold leading_digits. intros Hne.
  destruct (take_decimal_split (py_chars u)) as (_ & digits & _ & Hall).
  assert (Hchars : take_decimal (py_chars u) <> []).
  { intros E. apply Hne. by rewrite E. }
  destruct (int_of_decimal_chars _ digits Hchars Hall) as [H1 H2].
  exists digits. by rewrite H1.
Qed.

Lemma gameweek_at_spec (u token : string) :
  gameweek_at u = Some token ->
  (exists post, u = "Gameweek " +:+ token +:+ post) /\
  exists rest, token = leading_digits rest /\ token <> "".
Proof.
  unfold gameweek_at.
  destruct (String.prefix "Gameweek " u) eqn:Ep; [|discriminate].
  apply prefix_spec in Ep as [rest ->].
  change (String.length ("Gameweek " +:+ rest) - 9)%nat
    with (String.length rest - 0)%nat.
  rewrite Nat.sub_0_r.
  change (substring 9 (String.length rest) ("Gameweek " +:+ rest))
    with (substring 0 (String.length rest) rest).
  rewrite substring_all.
  destruct (leading_digits_split rest) as [post Hpost].
  destruct (leading_digits rest) as [|d ds] eqn:El; [discriminate|].
  intros [= <-]. split.
  - exists post.
    change ("Gameweek " +:+ String d ds +:+ post)
      with ("Gameweek " +:+ (String d ds +:+ post)).
    by rewrite <- Hpost.
  - exists rest. by rewrite El.
Qed.

Lemma search_gameweek_spec (text token : string) :
  search_gameweek text = Some token ->
  (exists pre post, text = pre +:+ "Gameweek " +:+ token +:+ post) /\
  exists rest, token = leading_digits rest /\ token <> "".
Proof.
  induction text as [|c text IH]; cbn [search_gameweek]; [discriminate|].
  destruct (gameweek_at (String c text)) as [digits|] eqn:E.
  - intros [= ->]. apply gameweek_at_spec in E as [[post E] Hrest].
    split; [by exists "", post | exact Hrest].
  - intros H. destruct (IH H) as [(pre & post & ->) Hrest].
    split; [by exists (String c pre), post | exact Hrest].
Qed.

(** The token of a page is a run of decimal digits. *)
Lemma scraped_token_reads (page : http (option manager_div))
    (scraped : list transfer) (chip : option string) (token : string) :
  scrape_target_transfers strip page = (scraped, chip, Some token) ->
  exists digits,
    py_chars token <> [] /\
    Forall2 (fun char d => char_digit char = Some d) (py_chars token) digits /\
    int_of_str token =
      if 4300 <? Z.of_nat (length (py_chars token)) then None
      else Some (positional digits).
Proof.
  intros H.
  assert (Hs : exists text, search_gameweek text = Some token).
  { destruct page as [|[section|]]; [discriminate| |discriminate].
    cbn in H. destruct (gameweek_h3 section) as [text|]; [|discriminate].
    exists text. congruence. }
  destruct Hs as [text Hs].
  apply search_gameweek_spec in Hs as [_ (rest & -> & Hne)].
  by apply leading_digits_reads.
Qed.

(** X14. Whenever [scrape_target_transfers] returns a gameweek, the
    token stands right after the word [Gameweek] in the heading and is
    a run of decimal digits, of any script, that is not empty; [int]
    reads it as a non-negative integer when it has at most 4300 digits,
    and raises [ValueError] when it has more. *)
Theorem scraped_gameweek_is_a_number (page : http (option manager_div))
    (scraped : list transfer) (chip : option string) (token : string) :
  scrape_target_transfers strip page = (scraped, chip, Some token) ->
  (exists section text pre post,
     page = Response (Some section) /\ gameweek_h3 section = Some text /\
     text = pre +:+ "Gameweek " +:+ token +:+ post) /\
  py_chars token <> [] /\
  Forall (fun char => is_decimal_char char = true) (py_chars token) /\
  if 4300 <? Z.of_nat (length (py_chars token))
  then int_of_str token = None
  else exists n, 0 <= n /\ int_of_str token = Some n.
Proof.
  intros H.
  destruct (scraped_token_reads page scraped chip token H)
    as (digits & Hne & Hall & Hint).
  split; [|split; [exact Hne|split]].
  - destruct page as [|[section|]]; [discriminate| |discriminate].
    cbn in H. destruct (gameweek_h3 section) as [text|] eqn:Eh; [|discriminate].
    injection H as _ _ H. apply search_gameweek_spec in H as [(pre & post & H) _].
    by exists section, text, pre, post.
  - clear Hint Hne. induction Hall as [|char d chars ds Hd _ IH]; constructor;
      [|exact IH].
    apply char_digit_decimal. by exists d.
  - destruct (4300 <? Z.of_nat (length (py_chars token))); [exact Hint|].
    exists (positional digits). split; [|exact Hint].
    apply positional_nonneg. by apply (char_digits_bounds (py_chars token)).
Qed.

(** X17. The scraped transfers are exactly the stripped name pairs of the
    list items that have two player boxes, a name in each, and no
    [Default Player] in either name; there are no more of them than list
    items. *)
Theorem scraped_transfers_spec (section : manager_div) (items : list transfer_li)
    (p_out p_in : string) :
  transfers_ul section = Some items ->
  let scraped := (scrape_target_transfers strip (Response (Some section))).1.1 in
  ((p_out, p_in) ∈ scraped <->
   exists out_text in_text,
     TransferLi [Some out_text; Some in_text] ∈ items /\
     p_out = strip out_text /\ p_in = strip in_text /\
     (~ exists pre post, p_out = pre +:+ "Default Player" +:+ post) /\
     (~ exists pre post, p_in = pre +:+ "Default Player" +:+ post)) /\
  (length scraped <= length items)%nat.
Proof.
  intros Hul scraped. unfold scraped. cbn. rewrite Hul. clear scraped Hul. split.
  - rewrite list_elem_of_In, in_flat_map. split.
    + intros (item & Hitem & Hin). destruct item as [divs].
      unfold item_transfers in Hin. cbn [player_divs] in Hin.
      destruct divs as [|[out_text|] [|[in_text|] [|? ?]]]; try by destruct Hin.
      destruct (str_contains "Default Player" (strip out_text)) eqn:Eo;
        [by destruct Hin|].
      destruct (str_contains "Default Player" (strip in_text)) eqn:Ei;
        [by destruct Hin|].
      cbn in Hin. destruct Hin as [[= <- <-]|[]].
      exists out_text, in_text. split; [by apply list_elem_of_In|].
      split; [reflexivity|]. split; [reflexivity|].
      split; rewrite <- str_contains_spec; congruence.
    + intros (out_text & in_text & Hitem & -> & -> & Ho & Hi).
      exists (TransferLi [Some out_text; Some in_text]).
      split; [by apply list_elem_of_In|].
      unfold item_transfers. cbn [player_divs].
      rewrite <- str_contains_spec in Ho, Hi.
      apply not_true_is_false in Ho, Hi. rewrite Ho, Hi. by left.
  - induction items as [|item items IH]; [reflexivity|].
    cbn [flat_map]. rewrite length_app. cbn [length].
    assert (Hone : (length (item_transfers strip item) <= 1)%nat).
    { unfold item_transfers.
      destruct (player_divs item) as [|[?|] [|[?|] [|? ?]]]; cbn; try lia.
      destruct (negb _ && negb _); cbn; lia. }
    lia.
Qed.

End Scraper.

(** ** The login *)

Section Login.

Lemma cookie_conflict_nil : ~ cookie_conflict [].
Proof. intros (i & value & H & _). by rewrite lookup_nil in H. Qed.

Lemma cookie_conflict_none (values : list (option string)) :
  cookie_conflict (None :: values) <-> cookie_conflict values.
Proof.
  split.
  - intros ([|i] & value & Hi & Hlen); [discriminate|].
    exists i, value. cbn in *. split; [exact Hi | lia].
  - intros (i & value & Hi & Hlen). exists (S i), value. cbn. split; [exact Hi | lia].
Qed.

Lemma cookie_conflict_some (value : string) (values : list (option string)) :
  cookie_conflict (Some value :: values) <-> values <> [].
Proof.
  split.
  - intros (i & v & _ & Hlen) ->. cbn in Hlen. lia.
  - intros Hne. exists 0%nat, value. split; [reflexivity|].
    destruct values; [done | cbn; lia].
Qed.

(** [session.cookies.get('csrftoken')] raises exactly on a conflict. *)
Lemma cookies_get_spec (values : list (option string)) :
  (cookie_conflict values /\ cookies_get values = Raised CookieConflictError) \/
  (~ cookie_conflict values /\ exists value, cookies_get values = Returned value).
Proof.
  unfold cookies_get. induction values as [|[value|] values IH].
  - right. split; [apply cookie_conflict_nil | by eexists].
  - cbn [find_no_duplicates]. destruct values as [|next values].
    + right. split; [rewrite cookie_conflict_some; intros H; by apply H|].
      cbn. destruct value; by eexists.
    + left. split; [by rewrite cookie_conflict_some | reflexivity].
  - cbn [find_no_duplicates]. by rewrite cookie_conflict_none.
Qed.

Lemma login_true_iff (site : fix_site) :
  login_to_fix site = Returned true <-> logged_in site.
Proof.
  unfold login_to_fix, logged_in. split.
  - destruct (signin_page site) as [|page]; [discriminate|].
    destruct (csrf_input page) as [[t1|]|] eqn:E1; [|discriminate|discriminate].
    destruct (cookies_get_spec (csrftoken_cookies site)) as [[Hc ->]|[Hc [v ->]]];
      [discriminate|].
    cbn [mbind result_bind].
    destruct (email_step site) as [|soup_pass]; [discriminate|].
    destruct (password_input soup_pass) eqn:Ep; [|discriminate]. cbn [negb].
    destruct (csrf_input soup_pass) as [[t2|]|] eqn:E2; [|discriminate|discriminate].
    destruct (password_step site) as [|text]; [discriminate|].
    destruct (str_contains "Logout" text || str_contains "My Account" text) eqn:Et;
      [|discriminate].
    intros _. exists page, t1, soup_pass, t2, text. repeat split; try done.
    apply orb_true_iff in Et. by rewrite <- !str_contains_spec.
  - intros (page & t1 & soup_pass & t2 & text & -> & -> & Hc & -> & -> & -> & -> & Ht).
    destruct (cookies_get_spec (csrftoken_cookies site)) as [[Hc' _]|[_ [v ->]]];
      [contradiction|].
    cbn [mbind result_bind negb]. rewrite <- !str_contains_spec in Ht.
    apply orb_true_iff in Ht. by rewrite Ht.
Qed.

Lemma login_raised_iff (site : fix_site) (e : exn) :
  login_to_fix site = Raised e <-> login_escapes site e.
Proof.
  unfold login_to_fix. split.
  - destruct (signin_page site) as [|page] eqn:Es; [discriminate|].
    destruct (csrf_input page) as [[t1|]|] eqn:E1; [|discriminate|].
    + destruct (cookies_get_spec (csrftoken_cookies site)) as [[Hc ->]|[Hc [v ->]]].
      { intros [= <-]. by apply (csrftoken_cookie_twice site page t1). }
      cbn [mbind result_bind].
      destruct (email_step site) as [|soup_pass] eqn:Ee; [discriminate|].
      destruct (password_input soup_pass) eqn:Ep; [|discriminate]. cbn [negb].
      destruct (csrf_input soup_pass) as [[t2|]|] eqn:E2; [|discriminate|].
      * destruct (password_step site) as [|text]; [discriminate|].
        by destruct (str_contains "Logout" text || str_contains "My Account" text).
      * intros [= <-].
        by apply (email_step_lacks_csrf_input site page t1 soup_pass).
    + intros [= <-]. by apply (signin_lacks_csrf_input site page).
  - intros [page Hs Hc|page t1 Hs Hc Hcc|page t1 soup_pass Hs Hc Hcc He Hp Hc2];
      rewrite Hs, Hc; [reflexivity| |].
    + destruct (cookies_get_spec (csrftoken_cookies site)) as [[_ ->]|[Hn _]];
        [reflexivity | contradiction].
    + destruct (cookies_get_spec (csrftoken_cookies site)) as [[Hn _]|[_ [v ->]]];
        [contradiction|].
      cbn [mbind result_bind]. by rewrite He, Hp, Hc2.
Qed.

(** X18. [login_to_fix] answers [True] exactly when the three exchanges
    all succeed, both form pages carry a CSRF token, the cookie jar
    holds no [csrftoken] cookie behind one that has a value, the second
    page has a password field, and the last page mentions [Logout] or
    [My Account]; it answers [False] exactly when the login neither goes
    through nor lets an exception escape. *)
Theorem login_succeeds_iff (site : fix_site) :
  (login_to_fix site = Returned true <-> logged_in site) /\
  (login_to_fix site = Returned false <->
   ~ logged_in site /\ forall e, ~ login_escapes site e).
Proof.
  split; [apply login_true_iff|]. split.
  - intros H. split.
    + rewrite <- login_true_iff, H. discriminate.
    + intros e. rewrite <- login_raised_iff, H. discriminate.
  - intros [Hn He]. destruct (login_to_fix site) as [[|]|e] eqn:E.
    + by apply login_true_iff in E.
    + reflexivity.
    + by apply login_raised_iff, He in E.
Qed.

End Login.

(** ** The entry point on a site *)

Section EntryPoint.

Context (seed : set_order) (strip : string -> string).

Lemma check_site_login_raised (site : fix_site) (w : world) (e : exn) :
  login_to_fix site = Raised e ->
  check_site seed strip site w = (Raised e, w).
Proof.
  intros H. unfold check_site, mbind, M_bind, lift, observe. by rewrite H.
Qed.

Lemma check_site_login_returned (site : fix_site) (w : world) (ok : bool) :
  login_to_fix site = Returned ok ->
  check_site seed strip site w =
    if ok then check_for_new_transfers seed (page_snapshot strip site) w
    else (answer LoginFailed, w).
Proof.
  intros H. unfold check_site, mbind, M_bind, lift, observe. rewrite H.
  unfold mbind, result_bind, page_snapshot, page_pairs, page_chip, page_token.
  destruct (scrape_target_transfers strip (reveal_page site)) as [[scraped chip] token].
  destruct ok; [reflexivity|]. by apply check_login_failed.
Qed.

Lemma seen_set_of_raises (v : json) (e : exn) :
  seen_set_of v = Raised e -> e = TypeError.
Proof.
  unfold seen_set_of.
  assert (Hmap : forall l e', result_map hashed_tuple l = Raised e' -> e' = TypeError).
  { induction l as [|t l IH]; intros e'; [discriminate|].
    cbn [result_map]. unfold mbind at 1, result_bind.
    destruct (hashed_tuple t) as [tup|e0] eqn:Et.
    - unfold mbind, result_bind.
      destruct (result_map hashed_tuple l) as [ys|e1]; [discriminate|].
      intros [= <-]. by apply IH.
    - intros [= <-]. unfold hashed_tuple, mbind, result_bind in Et.
      destruct (py_iter t) as [tup|e1] eqn:Ei.
      + destruct (forallb hashable tup); congruence.
      + destruct t; cbn in Ei; congruence. }
  unfold mbind at 1, result_bind.
  destruct (py_iter v) as [ts|e0] eqn:Ei.
  - unfold mbind, result_bind.
    destruct (result_map hashed_tuple ts) as [tuples|e1] eqn:Em; [discriminate|].
    intros [= <-]. by apply (Hmap ts).
  - intros [= <-]. destruct v; cbn in Ei; congruence.
Qed.

Lemma load_raised_iff (w : world) (e : exn) :
  load_state w = (Raised e, w) <->
  state_file w = FileRejected e \/ (state_file w = FileUnreadable /\ e = OSError).
Proof.
  unfold load_state. destruct (state_file w) as [| |data| |e'].
  - split; [discriminate | by intros [?|[? _]]].
  - split; [discriminate | by intros [?|[? _]]].
  - destruct (is_dict data && has_key "gameweek" data && has_key "transfers" data);
      (split; [discriminate | by intros [?|[? _]]]).
  - split; [intros [= <-]; by right | by intros [?|[_ ->]]].
  - split; [intros [= <-]; by left | by intros [[= ->]|[? _]]].
Qed.

(** The ways in which a check raises, and the world it then leaves. *)
Lemma check_raised (obs : observation) (w w' : world) (e : exn) :
  check_for_new_transfers seed obs w = (Raised e, w') <->
  login_ok obs = true /\
  exists token,
    gameweek obs = Some token /\
    ((int_of_str token = None /\ e = ValueError /\ w' = w) \/
     exists gw,
       int_of_str token = Some gw /\
       ((load_state w = (Raised e, w) /\ w' = w) \/
        (readable w /\
         int_ne gw (dict_get "gameweek" (persisted w) JNull) = false /\
         seen_set_of (dict_get "transfers" (persisted w) (JArr [])) = Raised e /\
         w' = w) \/
        (readable w /\
         reaches_write gw (scraped_transfers obs) w /\
         store_writable w = false /\ e = OSError /\
         w' = unwritten gw (scraped_transfers obs) w))).
Proof.
  split.
  - intros H. check_branches seed obs w; rewrite Hcheck in H; clear Hcheck;
      try discriminate.
    + destruct (store_writable w) eqn:Hw; [discriminate|]. injection H as <- <-.
      split; [done|]. exists token. split; [done|]. right. exists gw.
      split; [done|]. right. right. repeat split; try done. by left.
    + split; [done|]. exists token. split; [done|]. right. exists gw.
      split; [done|]. right.
      destruct (seen_set_of _) as [seen|e1] eqn:Eseen.
      * destruct (decide _) as [Hd|Hd]; [discriminate|].
        destruct (store_writable w) eqn:Hw; [discriminate|]. injection H as <- <-.
        right. repeat split; try done. right. exists seen. split; [done|].
        fold (pairs_of obs). by rewrite <- difference_empty_subseteq.
      * injection H as <- <-. by left.
    + injection H as <- <-. split; [done|]. exists token. split; [done|].
      right. exists gw. split; [done|]. by left.
    + injection H as <- <-. split; [done|]. exists token. split; [done|]. by left.
  - intros (Hlogin & token & Htok & [(Hint & -> & ->)|(gw & Hint & H)]).
    { by apply (check_bad_token seed obs w token). }
    assert (Hobs : observed obs gw) by (split; [done | by exists token]).
    destruct H as [[Hload ->]|[(Hread & Hne & Hseen & ->)|
                               (Hread & Hreach & Hw & -> & ->)]].
    + by apply (check_load_raised seed obs w gw).
    + by rewrite (check_same_period seed obs w gw Hobs Hread Hne), Hseen.
    + destruct (int_ne gw (dict_get "gameweek" (persisted w) JNull)) eqn:Hne.
      * by rewrite (check_rollover seed obs w gw Hobs Hread Hne), Hw.
      * destruct Hreach as [Hreach|(seen & Hseen & Hsub)]; [congruence|].
        rewrite (check_same_period seed obs w gw Hobs Hread Hne), Hseen.
        fold (pairs_of obs) in Hsub.
        rewrite decide_False by by rewrite difference_empty_subseteq.
        by rewrite Hw.
Qed.




(** X15. A check that raises has left the world as it was, except when
    the exception is the [OSError] of a state write that failed: the
    state file is then what the failed write left, and if the write
    failed after the file was opened and before all of the text had
    reached it, the next [load_state] finds the empty state: the old
    baseline is lost. *)
Theorem check_site_exceptions (site : fix_site) (w w' : world) (e : exn) :
  check_site seed strip site w = (Raised e, w') ->
  w' = w \/
  (e = OSError /\ store_writable w = false /\ readable w /\
   exists gw,
     w' = unwritten gw (page_pairs strip site) w /\
     state_file w' = left_by_failed_write gw (page_pairs strip site) w /\
     (failed_write w = DumpFails -> load_state w' = (Returned empty_doc, w'))).
Proof.
  intros H. destruct (login_to_fix site) as [[|]|e0] eqn:El.
  - rewrite (check_site_login_returned site w true El) in H.
    apply check_raised in H as (_ & token & Htok & H).
    cbn [gameweek page_snapshot scraped_transfers] in *.
    destruct H as [(_ & _ & ->)|(gw & Hint & H)]; [by left|].
    destruct H as [[_ ->]|[(_ & _ & _ & ->)|(Hread & _ & Hw & -> & ->)]];
      [by left | by left |].
    right. split; [done|]. split; [done|]. split; [done|]. exists gw.
    split; [done|]. split; [apply unwritten_state_file|].
    intros Ef. unfold unwritten. by rewrite Ef.
  - rewrite (check_site_login_returned site w false El) in H. discriminate.
  - rewrite (check_site_login_raised site w e0 El) in H. injection H as _ <-.
    by left.
Qed.

(** X16. A page on which the gameweek cannot be found never changes the
    stored state, even when it lists transfers: after a successful login,
    if the request fails, the manager's section is missing, or the section
    has no heading with a gameweek number, the check answers with the
    scraping error, flag clear, and the world is untouched. *)
Theorem page_without_gameweek_leaves_state (site : fix_site) (w : world) :
  login_to_fix site = Returned true ->
  (reveal_page site = RequestError \/
   reveal_page site = Response None \/
   exists section,
     reveal_page site = Response (Some section) /\
     (gameweek_h3 section = None \/
      exists text, gameweek_h3 section = Some text /\ search_gameweek text = None)) ->
  check_site seed strip site w = (answer ExtractionFailed, w).
Proof.
  intros Hlogin Hpage. rewrite (check_site_login_returned site w true Hlogin).
  apply check_extraction_failed; [reflexivity|].
  cbn [gameweek page_snapshot]. unfold page_token.
  destruct Hpage as [Hp|[Hp|(section & Hp & Hh)]]; rewrite Hp; try reflexivity.
  cbn. destruct Hh as [Hh|(text & Hh & Hs)]; rewrite Hh; [reflexivity | exact Hs].
Qed.


End EntryPoint.

(** * Further properties of the code *)

(** ** More on [escape_markdown] *)

Section EscapingMore.

Lemma backslash_not_reserved : ~ reserved "\".
Proof. rewrite <- char_in_reserved. discriminate. Qed.

(** An escaped text never starts with a bare reserved character. *)
Lemma escape_markdown_head (text out : string) (c : ascii) :
  escape_markdown text = String c out -> ~ reserved c.
Proof.
  destruct text as [|a text]; [discriminate|].
  rewrite escape_markdown_cons. destruct (char_in a escape_chars) eqn:E.
  - intros [= <- _]. apply backslash_not_reserved.
  - intros [= <- _]. rewrite <- char_in_reserved, E. discriminate.
Qed.

(** X1. In the escaped text every reserved character stands right after a
    backslash: wherever a reserved character occurs, what precedes it
    ends with a backslash. *)
Theorem escape_markdown_guards (text pre post : string) (c : ascii) :
  escape_markdown text = pre +:+ String c post ->
  reserved c ->
  exists pre', pre = pre' +:+ "\".
Proof.
  revert pre. induction text as [|a text IH]; intros pre H Hc.
  - destruct pre; discriminate.
  - destruct pre as [|p pre].
    + change ("" +:+ String c post) with (String c post) in H.
      by apply escape_markdown_head in H.
    + rewrite escape_markdown_cons in H.
      change (String p pre +:+ String c post)
        with (String p (pre +:+ String c post)) in H.
      destruct (char_in a escape_chars) eqn:E.
      * injection H as <- H. destruct pre as [|p' pre].
        -- by exists "".
        -- change (String p' pre +:+ String c post)
             with (String p' (pre +:+ String c post)) in H.
           injection H as <- H. destruct (IH pre H Hc) as [pre' ->].
           by exists (String "\" (String a pre')).
      * injection H as <- H. destruct (IH pre H Hc) as [pre' ->].
        by exists (String a pre').
Qed.

(** X2. Escaping loses nothing: two texts with the same escaped form are
    the same text. *)
Theorem escape_markdown_injective (a b : string) :
  escape_markdown a = escape_markdown b -> a = b.
Proof.
  revert b. induction a as [|x a IH]; intros [|y b] H.
  - reflexivity.
  - rewrite escape_markdown_cons in H.
    destruct (char_in y escape_chars); discriminate.
  - rewrite escape_markdown_cons in H.
    destruct (char_in x escape_chars); discriminate.
  - rewrite !escape_markdown_cons in H.
    destruct (char_in x escape_chars) eqn:Ex, (char_in y escape_chars) eqn:Ey.
    + injection H as -> H. f_equal. by apply IH.
    + injection H as <- H. symmetry in H. apply escape_markdown_head in H.
      apply char_in_reserved in Ex. contradiction.
    + injection H as -> H. apply escape_markdown_head in H.
      apply char_in_reserved in Ey. contradiction.
    + injection H as -> H. f_equal. by apply IH.
Qed.

(** X3. The escaped text is longer than the text by the number of its
    reserved characters, and it is the text itself exactly when the text
    has no reserved character. *)
Theorem escape_markdown_length (text : string) :
  String.length (escape_markdown text) =
    (String.length text
     + length (List.filter (fun c => char_in c escape_chars)
                 (list_ascii_of_string text)))%nat /\
  (escape_markdown text = text <->
   forall c, c ∈ list_ascii_of_string text -> ~ reserved c).
Proof.
  assert (Hlen : String.length (escape_markdown text) =
    (String.length text
     + length (List.filter (fun c => char_in c escape_chars)
                 (list_ascii_of_string text)))%nat).
  { induction text as [|a text IH]; [reflexivity|].
    rewrite escape_markdown_cons. cbn [list_ascii_of_string List.filter].
    destruct (char_in a escape_chars); cbn [String.length length]; lia. }
  split; [exact Hlen|]. split.
  - intros Heq c Hin Hc. rewrite Heq in Hlen.
    assert (Hnil : List.filter (fun c => char_in c escape_chars)
                     (list_ascii_of_string text) = []).
    { apply length_zero_iff_nil. lia. }
    apply char_in_reserved in Hc. apply list_elem_of_In in Hin.
    assert (Hf : In c (List.filter (fun c => char_in c escape_chars)
                         (list_ascii_of_string text))).
    { apply filter_In. by split. }
    rewrite Hnil in Hf. destruct Hf.
  - clear Hlen. intros Hall. induction text as [|a text IH]; [reflexivity|].
    rewrite escape_markdown_cons.
    destruct (char_in a escape_chars) eqn:E.
    + exfalso. apply (Hall a); [by left | by apply char_in_reserved].
    + f_equal. apply IH. intros c Hin. apply Hall. by right.
Qed.

End EscapingMore.

(** ** The state file, written then read *)

Section StoreMore.

(** X4. Round trip through the state file: if the file can be written
    and is not one that may be written and not read, then whatever it
    held before, after [save_state gw ts] the function [load_state]
    returns the gameweek [gw] with the pairs [ts], and the check reads
    them back as they were saved: the stored gameweek equals [gw] and no
    other integer, and the set of seen pairs is the set of [ts]. On a
    file that may be written and not read, [load_state] raises [OSError]
    after the write as before it. *)
Theorem save_state_load_state (gw : Z) (ts : list transfer) (w : world) :
  store_writable w = true ->
  exists w',
    save_state gw ts w = (Returned (), w') /\
    (state_file w <> FileUnreadable ->
     load_state w' = (Returned (state_doc gw ts), w')) /\
    (state_file w = FileUnreadable -> load_state w' = (Raised OSError, w')) /\
    (forall n, int_ne n (dict_get "gameweek" (state_doc gw ts) JNull) = false
               <-> n = gw) /\
    seen_set_of (dict_get "transfers" (state_doc gw ts) (JArr []))
    = Returned (list_to_set ts).
Proof.
  intros Hw. unfold save_state. rewrite Hw. eexists. split; [reflexivity|].
  split; [|split; [|split]].
  - intros Hf. unfold load_state. cbn [state_file].
    by destruct (state_file w).
  - intros Hf. unfold load_state. cbn [state_file]. by rewrite Hf.
  - intros n. change (dict_get "gameweek" (state_doc gw ts) JNull) with (JInt gw).
    cbn [int_ne]. rewrite negb_false_iff. apply Z.eqb_eq.
  - change (dict_get "transfers" (state_doc gw ts) (JArr []))
      with (JArr (transfer_json <$> ts)).
    apply seen_set_of_saved.
Qed.

(** X5. Whenever [load_state] returns, it returns a dictionary that has
    both keys: the defaults of the two [get] calls of
    [check_for_new_transfers] are never used. It returns unless the file
    is there and cannot be read, or reading or parsing it fails in
    another way than with [JSONDecodeError]; it then raises. *)
Theorem load_state_has_both_keys (w : world) :
  (forall data w',
     load_state w = (Returned data, w') ->
     exists members saved_gameweek saved_transfers,
       data = JObj members /\ w' = w /\
       dict_lookup "gameweek" members = Some saved_gameweek /\
       dict_lookup "transfers" members = Some saved_transfers /\
       forall d1 d2,
         dict_get "gameweek" (JObj members) d1 = saved_gameweek /\
         dict_get "transfers" (JObj members) d2 = saved_transfers) /\
  ((exists data, load_state w = (Returned data, w)) <->
   state_file w <> FileUnreadable /\ forall e, state_file w <> FileRejected e) /\
  (forall e,
     load_state w = (Raised e, w) <->
     state_file w = FileRejected e \/ (state_file w = FileUnreadable /\ e = OSError)).
Proof.
  split; [|split].
  - assert (Hdefault : exists members saved_gameweek saved_transfers,
      default_state = JObj members /\
      dict_lookup "gameweek" members = Some saved_gameweek /\
      dict_lookup "transfers" members = Some saved_transfers /\
      forall d1 d2,
        dict_get "gameweek" (JObj members) d1 = saved_gameweek /\
        dict_get "transfers" (JObj members) d2 = saved_transfers).
    { by eexists _, _, _. }
    destruct Hdefault as (m0 & g0 & t0 & E0 & Hg0 & Ht0 & Hd0).
    intros data w'. unfold load_state.
    destruct (state_file w) as [| |doc| |e]; try discriminate.
    + intros [= <- <-]. by exists m0, g0, t0.
    + intros [= <- <-]. by exists m0, g0, t0.
    + destruct doc as [|b|n|f|s|items|members];
        try (intros [= <- <-]; by exists m0, g0, t0).
      cbn [is_dict andb].
      destruct (has_key "gameweek" (JObj members)) eqn:Hg;
        [destruct (has_key "transfers" (JObj members)) eqn:Ht|]; cbn [andb];
        try (intros [= <- <-]; by exists m0, g0, t0).
      apply has_key_lookup in Hg as [g Hg]. apply has_key_lookup in Ht as [t Ht].
      intros [= <- <-]. exists members, g, t. split; [reflexivity|].
      split; [reflexivity|]. split; [exact Hg|]. split; [exact Ht|].
      intros d1 d2. cbn [dict_get]. by rewrite Hg, Ht.
  - rewrite <- readable_iff. unfold readable. split.
    + intros [data H]. unfold persisted. by rewrite H.
    + intros H. by eexists.
  - intros e. apply load_raised_iff.
Qed.

End StoreMore.

(** ** What a check does to the stored state *)

Section CheckMore.

Context (seed : set_order).

(** X6. A check never announces anything without having stored it: when
    it returns with the flag set, the snapshot has a period and at least
    one pair, and the call has just written that period with the whole
    scraped list. When it returns with the flag clear, the stored state is
    untouched, except for the rollover to a page without transfers. *)
Theorem noteworthy_means_written (obs : observation) (w w' : world)
    (message : string) (has_updates : bool) :
  check_for_new_transfers seed obs w = (Returned (message, has_updates), w') ->
  (has_updates = true ->
     exists gw, observed obs gw /\ scraped_transfers obs <> [] /\
                store_writable w = true /\
                w' = written gw (scraped_transfers obs) w) /\
  (has_updates = false ->
     w' = w \/
     (scraped_transfers obs = [] /\ exists gw, w' = written gw [] w)).
Proof.
  intros H. check_branches seed obs w; rewrite Hcheck in H; clear Hcheck.
  - destruct (store_writable w) eqn:Hw; [|discriminate].
    rewrite answer_rollover in H.
    destruct (scraped_transfers obs) as [|t ts] eqn:Ets.
    + injection H as _ <- <-. split; [discriminate|]. intros _. right.
      split; [reflexivity|]. by exists gw.
    + injection H as _ <- <-. split; [|discriminate]. intros _.
      exists gw. split; [exact Hobs|]. split; [discriminate|]. by split.
  - destruct (seen_set_of _) as [seen_set|e]; [|discriminate].
    destruct (decide _) as [Hd|Hd].
    + injection H as _ <- <-. split; [discriminate|]. intros _. by left.
    + destruct (store_writable w) eqn:Hw; [|discriminate].
      injection H as _ <- <-. split; [|discriminate]. intros _.
      exists gw. split; [exact Hobs|]. split; [|by split].
      intros Ets. apply Hd. unfold pairs_of. rewrite Ets. set_solver.
  - discriminate.
  - discriminate.
  - injection H as _ <- <-. split; [discriminate|]. intros _. by left.
  - injection H as _ <- <-. split; [discriminate|]. intros _. by left.
Qed.

(** X7. A stored transfers field that the set comprehension cannot read
    blocks the gameweek: as long as the page stays in the stored
    gameweek, every check raises [TypeError] and leaves the world as it
    is, whatever the snapshots are. *)
Theorem corrupted_transfers_block (gw : Z) (w : world) (e : exn)
    (snapshots : list observation) :
  int_ne gw (dict_get "gameweek" (persisted w) JNull) = false ->
  seen_set_of (dict_get "transfers" (persisted w) (JArr [])) = Raised e ->
  Forall (fun obs => observed obs gw) snapshots ->
  run_checks seed snapshots w
  = (replicate (length snapshots) (Raised TypeError), w).
Proof.
  intros Hne Hseen Hall. induction Hall as [|obs rest Hobs _ IH]; [reflexivity|].
  cbn [run_checks length replicate].
  rewrite (check_same_period seed obs w gw Hobs (int_ne_false_readable w gw Hne) Hne).
  rewrite Hseen, IH.
  by rewrite (seen_set_of_raises _ _ Hseen).
Qed.

End CheckMore.

(** ** The two triggers: the daily report and the [/check] command *)

Section Triggers.

Context (seed : set_order).

Lemma with_store_same (b : bot) : with_store (state_store b) b = b.
Proof. by destruct b. Qed.


(** X9. What a [/check] command has shown is not announced again: after a
    command that completed, a daily report that finds the same snapshot
    sends nothing and changes nothing. *)
Theorem report_silent_after_command (obs : observation) (chat_id job_chat_id : Z)
    (b b1 : bot) :
  check_command (check_for_new_transfers seed obs) chat_id b = (Done, b1) ->
  send_daily_report (check_for_new_transfers seed obs) job_chat_id b1 = (Done, b1).
Proof.
  unfold check_command, send_message.
  destruct (telegram_up b) eqn:Hup; [|discriminate]. cbn [state_store].
  destruct (check_for_new_transfers seed obs (state_store b)) as [[[m flag]|e] w]
    eqn:Hcheck; [|discriminate].
  cbn [with_store telegram_up]. intros [= <-].
  destruct (settled_after_check seed obs _ _ _ Hcheck) as [m' Hm'].
  unfold send_daily_report. cbn [state_store]. rewrite Hm'. reflexivity.
Qed.

(** X10. The daily report stores before it sends: when the check finds an
    update while Telegram refuses the message, the report fails with the
    baseline already advanced, so every later report that finds the same
    snapshot is silent and the update is never delivered. *)
Theorem undelivered_update_is_lost (obs : observation) (chat_id : Z) (b : bot)
    (message : string) (w1 : world) :
  check_for_new_transfers seed obs (state_store b) = (Returned (message, true), w1) ->
  telegram_up b = false ->
  send_daily_report (check_for_new_transfers seed obs) chat_id b
  = (Failed TelegramError, with_store w1 b) /\
  forall later : bot,
    state_store later = w1 ->
    send_daily_report (check_for_new_transfers seed obs) chat_id later
    = (Done, later).
Proof.
  intros Hcheck Hdown. split.
  - unfold send_daily_report, send_message. rewrite Hcheck.
    cbn [with_store telegram_up]. by rewrite Hdown.
  - intros later Hlater.
    destruct (settled_after_check seed obs _ _ _ Hcheck) as [m' Hm'].
    unfold send_daily_report. rewrite Hlater, Hm', <- Hlater.
    by rewrite with_store_same.
Qed.

End Triggers.

(** ** The [/start] command *)

Section Start.

Lemma str_of_int_inj (m n : Z) : str_of_int m = str_of_int n -> m = n.
Proof.
  unfold str_of_int. intros H. apply DecimalZ.to_int_inj.
  assert (Hnorm : forall z, Z.to_int z <> Decimal.Pos Decimal.Nil /\
                            Z.to_int z <> Decimal.Neg Decimal.Nil).
  { intros [|p|p]; cbn; split; try discriminate;
      intros [= Hp]; by apply DecimalPos.Unsigned.to_uint_nonnil in Hp. }
  destruct (Hnorm m) as [Hm1 Hm2]. destruct (Hnorm n) as [Hn1 Hn2].
  apply (f_equal NilZero.int_of_string) in H.
  rewrite !NilZero.isi in H by assumption. congruence.
Qed.

Lemma str_of_int_nonempty (n : Z) : str_of_int n <> "".
Proof.
  unfold str_of_int. intros H.
  assert (Hnorm : Z.to_int n <> Decimal.Pos Decimal.Nil /\
                  Z.to_int n <> Decimal.Neg Decimal.Nil).
  { destruct n as [|p|p]; cbn; split; try discriminate;
      intros [= Hp]; by apply DecimalPos.Unsigned.to_uint_nonnil in Hp. }
  destruct Hnorm as [H1 H2].
  pose proof (NilZero.isi _ H1 H2) as Hisi. rewrite H in Hisi. discriminate.
Qed.

Lemma removed_jobs_gone (name : string) (jobs : list job) :
  filter (fun j => job_name j = name) (filter (fun j => job_name j <> name) jobs) = [].
Proof.
  induction jobs as [|j jobs IH]; [reflexivity|].
  rewrite (filter_cons (fun j => job_name j <> name)).
  destruct (decide (job_name j <> name)) as [Hne|_]; [|exact IH].
  by rewrite filter_cons_False.
Qed.

(** The handler for an authorised user. *)
Lemma start_authorised (user_id chat_id : Z) (b : bot) :
  start (Some (str_of_int user_id)) user_id chat_id b =
    send_message chat_id msg_scheduled true
      (with_jobs
         (filter (fun j => job_name j <> str_of_int chat_id) (job_queue b)
          ++ [Job (str_of_int chat_id) chat_id]) b).
Proof.
  unfold start. destruct (str_of_int user_id) eqn:E.
  - by apply str_of_int_nonempty in E.
  - by rewrite String.eqb_refl.
Qed.

Lemma job_queue_send_message (chat_id : Z) (text : string) (markdown : bool) (b : bot) :
  job_queue (send_message chat_id text markdown b).2 = job_queue b /\
  state_store (send_message chat_id text markdown b).2 = state_store b.
Proof. unfold send_message. by destruct (telegram_up b). Qed.

(** X11. Only the administrator schedules: if [/start] changes the job
    queue, then [ADMIN_USER_ID] is set and is, character for character,
    the decimal writing of the sender's user id. In no case does [/start]
    touch the stored state. *)
Theorem start_only_admin (admin_id : option string) (user_id chat_id : Z) (b : bot) :
  state_store (start admin_id user_id chat_id b).2 = state_store b /\
  (job_queue (start admin_id user_id chat_id b).2 <> job_queue b ->
   admin_id = Some (str_of_int user_id)).
Proof.
  unfold start. destruct admin_id as [[|a admin]|].
  - split; [apply job_queue_send_message|].
    intros H. by destruct H; apply job_queue_send_message.
  - destruct (String.eqb (str_of_int user_id) (String a admin)) eqn:E; cbn [negb].
    + apply String.eqb_eq in E. split; [|intros _; by rewrite E].
      by rewrite (proj2 (job_queue_send_message _ _ _ _)).
    + split; [apply job_queue_send_message|].
      intros H. by destruct H; apply job_queue_send_message.
  - split; [apply job_queue_send_message|].
    intros H. by destruct H; apply job_queue_send_message.
Qed.

(** X12. For the administrator, [/start] leaves exactly one daily job for
    the chat, whatever jobs of that chat were queued before and whether
    or not the confirmation could be sent; the jobs of every other chat
    are the same as before. *)
Theorem start_schedules_one_job (user_id chat_id : Z) (b : bot) :
  let b' := (start (Some (str_of_int user_id)) user_id chat_id b).2 in
  jobs_by_name (str_of_int chat_id) b' = [Job (str_of_int chat_id) chat_id] /\
  forall other : Z,
    other <> chat_id ->
    jobs_by_name (str_of_int other) b' = jobs_by_name (str_of_int other) b.
Proof.
  intros b'. unfold b', jobs_by_name. rewrite start_authorised.
  destruct (job_queue_send_message chat_id msg_scheduled true
              (with_jobs
                 (filter (fun j => job_name j <> str_of_int chat_id) (job_queue b)
                  ++ [Job (str_of_int chat_id) chat_id]) b)) as [-> _].
  cbn [with_jobs job_queue]. split.
  - rewrite filter_app. cbn. rewrite decide_True by reflexivity.
    by rewrite removed_jobs_gone.
  - intros other Hother. rewrite filter_app. cbn.
    rewrite decide_False
      by (intros Heq; apply Hother; symmetry; by apply str_of_int_inj).
    rewrite app_nil_r. rewrite list_filter_filter.
    apply list_filter_iff. intros j. split; [tauto|].
    intros Hj. split; [exact Hj|]. intros Heq. rewrite Hj in Heq.
    apply Hother. by apply str_of_int_inj.
Qed.

(** X13. Repeating [/start] does not pile up jobs: for the administrator
    the job queue after two commands in a row is the one after the
    first. *)
Theorem start_twice_same_jobs (user_id chat_id : Z) (b : bot) :
  let once := (start (Some (str_of_int user_id)) user_id chat_id b).2 in
  job_queue (start (Some (str_of_int user_id)) user_id chat_id once).2
  = job_queue once.
Proof.
  intros once. unfold once. rewrite !start_authorised.
  repeat match goal with
         | |- context [job_queue (send_message ?c ?t ?m ?x).2] =>
             rewrite (proj1 (job_queue_send_message c t m x))
         end.
  cbn [with_jobs job_queue]. rewrite filter_app. cbn.
  rewrite decide_False by (intros H; by apply H).
  rewrite app_nil_r. f_equal. rewrite list_filter_filter.
  apply list_filter_iff. intros j. tauto.
Qed.

End Start.

(** * Where the code departs from the specification *)

Section Departures.

(** C1, as stated, fails. With the baseline X->Y of gameweek 5 and the
    page of gameweek 5 showing X->Y and P->Q, the difference is not
    empty; on a store whose write fails the check returns no
    [NewTransfersFound]: it raises [OSError], and the state file, which
    the failed write has emptied, holds no baseline at all. *)
Lemma new_pair_on_failing_store :
  check_for_new_transfers seed_forward (snapshot "5" [("X", "Y"); ("P", "Q")])
    (failing_store 5 [("X", "Y")] DumpFails)
  = (Raised OSError, store FileUnparseable false DumpFails).
Proof. by vm_compute. Qed.


(** C3, as stated, fails. Starting from the empty baseline of gameweek
    5, the page shows A->B, then C->D alone, then both: the second check
    replaces the baseline by [C->D], which no longer holds the pair
    A->B of the first snapshot, and the third check lists A->B as new a
    second time. *)
Lemma flickering_pair_reported_again :
  ~ history_kept seed_forward (stored 5 []) flickering_snapshots /\
  (run_checks seed_forward flickering_snapshots (stored 5 [])).1 =
    [answer (NewTransfersFound 5 [("A", "B")] None);
     answer (NewTransfersFound 5 [("C", "D")] None);
     answer (NewTransfersFound 5 [("A", "B")] None)].
Proof.
  split; [|by vm_compute].
  intros H. specialize (H 2%nat).
  assert (Hin : ("A", "B") ∈ persisted_pairs
                  (world_after seed_forward (take 2 flickering_snapshots)
                     (stored 5 []))).
  { apply H. apply (bool_decide_unpack _). vm_compute. exact I. }
  vm_compute in Hin. discriminate.
Qed.


(** C7, as stated, fails. A state file whose bytes are no UTF-8 text is
    not answered with the empty state: the [UnicodeDecodeError] of the
    read leaves [load_state], which catches [FileNotFoundError] and
    [JSONDecodeError] only; so does the [OSError] of a file that may not
    be read. *)
Lemma undecodable_state_file_raises :
  load_state undecodable_store = (Raised UnicodeDecodeError, undecodable_store) /\
  load_state write_only_store = (Raised OSError, write_only_store).
Proof. by split. Qed.

(** Another way out of [check_for_new_transfers]: [load_state] accepts
    any dictionary that has both keys, and a [transfers] field that is
    not iterable makes the set comprehension raise [TypeError]. *)
Lemma malformed_baseline_raises :
  check_for_new_transfers seed_forward (snapshot "5" [("X", "Y")]) malformed_store
  = (Raised TypeError, malformed_store).
Proof. by vm_compute. Qed.

(** The first-transfers listing of a rollover follows the scraped list,
    whatever the enumeration order of sets. *)
Lemma rollover_listing_in_page_order (seed1 seed2 : set_order)
    (obs : observation) (w : world) (gw : Z) :
  observed obs gw ->
  readable w ->
  int_ne gw (dict_get "gameweek" (persisted w) JNull) = true ->
  check_for_new_transfers seed1 obs w = check_for_new_transfers seed2 obs w.
Proof.
  intros Hobs Hread Hne.
  by rewrite (check_rollover seed1 obs w gw), (check_rollover seed2 obs w gw).
Qed.

(** C8 fails on the code. With the empty baseline of gameweek 5 and the
    page showing X->Y then P->Q, the new-transfers message lists the two
    pairs in the order in which the set [new_transfers] is enumerated:
    two interpreter processes that enumerate it differently produce
    different messages from the same snapshot and the same baseline. *)
Theorem new_transfers_listed_in_set_order :
  let obs := snapshot "5" [("X", "Y"); ("P", "Q")] in
  (check_for_new_transfers seed_forward obs (stored 5 [])).1
  = answer (NewTransfersFound 5 [("X", "Y"); ("P", "Q")] None) /\
  (check_for_new_transfers seed_backward obs (stored 5 [])).1
  = answer (NewTransfersFound 5 [("P", "Q"); ("X", "Y")] None) /\
  (check_for_new_transfers seed_forward obs (stored 5 [])).1
  <> (check_for_new_transfers seed_backward obs (stored 5 [])).1.
Proof.
  intros obs. split; [by vm_compute|]. split; [by vm_compute|].
  intros H. vm_compute in H. discriminate.
Qed.

Lemma numeral_5 : numeral "5" 1 5.
Proof. exists [53%N], [5]. by repeat split; repeat constructor. Defined.

(** C10, as stated, fails. The token [5] and the token [5] behind 4300
    zeros have the same numeric value, and are not taken for the same
    period: the first is read as 5, and [int] refuses the second, so
    that the check raises [ValueError]. *)
Lemma padded_token_refused :
  numeral "5" 1 5 /\
  numeral (zero_padded 4300 "5") 4301 5 /\
  check_for_new_transfers seed_forward (snapshot "5" []) first_run
  = (answer (PeriodRolledOver 5 [] None), written 5 [] first_run) /\
  check_for_new_transfers seed_forward (snapshot (zero_padded 4300 "5") []) first_run
  = (Raised ValueError, first_run).
Proof.
  split; [exact numeral_5|].
  split; [exact (numeral_zero_padded 4300 "5" 1 5 numeral_5)|].
  split; [by vm_compute|].
  apply (check_bad_token seed_forward _ first_run (zero_padded 4300 "5"));
    [reflexivity | reflexivity |].
  by destruct (int_of_numeral _ _ _ (numeral_zero_padded 4300 "5" 1 5 numeral_5)).
Qed.

End Departures.

(** * The examples of the specification, through the theorems *)

Section Examples.

Lemma observed_snapshot_5 (pairs : list transfer) : observed (snapshot "5" pairs) 5.
Proof. split; [reflexivity|]. exists "5". split; reflexivity. Defined.

Lemma stored_period (gw : Z) (pairs : list transfer) :
  persisted_period (stored gw pairs) (Some gw).
Proof. split; reflexivity. Defined.

Lemma stored_transfers (gw : Z) (pairs : list transfer) :
  persisted_transfers (stored gw pairs) pairs.
Proof. split; reflexivity. Defined.

(** Examples 2 and 3: nothing new, then P->Q new, in gameweek 5; and
    P->Q new on a store whose write is cut short. *)
Lemma same_period_check_witness :
  (check_for_new_transfers seed_forward (snapshot "5" [("X", "Y")])
     (stored 5 [("X", "Y")])
   = (answer (NoNewTransfers 5), stored 5 [("X", "Y")]) /\
   noteworthy (NoNewTransfers 5) = false) /\
  (exists newPairs w',
     newPairs ≡ₚ
       elements (pairs_of (snapshot "5" [("X", "Y"); ("P", "Q")])
                 ∖ list_to_set [("X", "Y")]) /\
     check_for_new_transfers seed_forward
       (snapshot "5" [("X", "Y"); ("P", "Q")]) (stored 5 [("X", "Y")])
     = (answer (NewTransfersFound 5 newPairs None), w') /\
     noteworthy (NewTransfersFound 5 newPairs None) = true /\
     state_file w' = FileDoc (baseline_doc 5 [("X", "Y"); ("P", "Q")]) /\
     write_log w' =
       (write_log (stored 5 [("X", "Y")])
          ++ [baseline_doc 5 [("X", "Y"); ("P", "Q")]])%list) /\
  (exists w',
     check_for_new_transfers seed_forward
       (snapshot "5" [("X", "Y"); ("P", "Q")]) (failing_store 5 [("X", "Y")] DumpFails)
     = (Raised OSError, w') /\
     state_file w' =
       left_by_failed_write 5 [("X", "Y"); ("P", "Q")]
         (failing_store 5 [("X", "Y")] DumpFails)).
Proof.
  split; [|split].
  - apply (same_period_check seed_forward (snapshot "5" [("X", "Y")])
             (stored 5 [("X", "Y")]) 5 [("X", "Y")]);
      [apply observed_snapshot_5 | apply stored_period | apply stored_transfers |].
    apply (bool_decide_unpack _). vm_compute. exact I.
  - apply (same_period_check seed_forward (snapshot "5" [("X", "Y"); ("P", "Q")])
             (stored 5 [("X", "Y")]) 5 [("X", "Y")]);
      [apply observed_snapshot_5 | apply stored_period | apply stored_transfers
      | | reflexivity].
    apply (bool_decide_unpack _). vm_compute. exact I.
  - apply (same_period_check seed_forward (snapshot "5" [("X", "Y"); ("P", "Q")])
             (failing_store 5 [("X", "Y")] DumpFails) 5 [("X", "Y")]);
      [apply observed_snapshot_5 | by split | by split | | reflexivity].
    apply (bool_decide_unpack _). vm_compute. exact I.
Defined.


(** Snapshots in which pairs come and go without any new pair displacing
    an old one, from the empty baseline of gameweek 5. *)
Lemma history_kept_iff_never_drops_witness :
  (history_kept seed_forward (stored 5 []) growing_snapshots <->
   never_drops (list_to_set []) growing_snapshots) /\
  (never_drops (list_to_set []) growing_snapshots ->
   forall earlier obs later,
     growing_snapshots = (earlier ++ obs :: later)%list ->
     (check_for_new_transfers seed_forward obs
        (world_after seed_forward earlier (stored 5 []))).1 =
       answer
         (same_period_outcome 5 (active_chip obs)
            (set_iter seed_forward
               (pairs_of obs ∖ seen_so_far (list_to_set []) earlier)))).
Proof.
  apply (history_kept_iff_never_drops seed_forward 5 (stored 5 []) []
           growing_snapshots);
    [apply stored_period | apply stored_transfers | reflexivity |].
  repeat constructor; apply observed_snapshot_5.
Defined.


(** A failed login over a stored baseline. *)
Lemma failed_check_leaves_state_witness :
  check_for_new_transfers seed_forward login_failure (stored 5 [("X", "Y")])
  = (answer LoginFailed, stored 5 [("X", "Y")]) /\
  noteworthy LoginFailed = false /\
  forall next,
    check_for_new_transfers seed_forward next
      (check_for_new_transfers seed_forward login_failure (stored 5 [("X", "Y")])).2
    = check_for_new_transfers seed_forward next (stored 5 [("X", "Y")]).
Proof.
  apply (failed_check_leaves_state seed_forward login_failure (stored 5 [("X", "Y")])).
  left. reflexivity.
Defined.


(** The four contents of the state file: a stored baseline, a bare list,
    bytes that are no text, and a file that may not be read. *)
Lemma load_state_spec_witness :
  load_state (stored 5 [("X", "Y")])
  = (Returned (baseline_doc 5 [("X", "Y")]), stored 5 [("X", "Y")]) /\
  load_state legacy_store = (Returned empty_doc, legacy_store) /\
  load_state undecodable_store = (Raised UnicodeDecodeError, undecodable_store) /\
  load_state write_only_store = (Raised OSError, write_only_store).
Proof.
  split; [|split; [|split]].
  - apply (load_state_spec (stored 5 [("X", "Y")])). split; [reflexivity|].
    apply loads_stored; by eexists.
  - apply (load_state_spec legacy_store). split; [reflexivity|].
    by apply loads_legacy.
  - apply (load_state_spec undecodable_store). split; [reflexivity|].
    apply loads_rejected.
  - apply (load_state_spec write_only_store). split; [reflexivity|].
    apply loads_unreadable.
Defined.

Lemma numeral_arabic_05 : numeral "٠٥" 2 5.
Proof. exists [1632%N; 1637%N], [0; 5]. by repeat split; repeat constructor. Defined.

(** The tokens [5] and [٠٥] name the same period; [5] behind 4300 zeros
    names none. *)
Lemma period_token_read_as_integer_witness :
  (check_for_new_transfers seed_forward (with_token (snapshot "5" [("X", "Y")]) "5")
     first_run
   = check_for_new_transfers seed_forward
       (with_token (snapshot "5" [("X", "Y")]) "٠٥") first_run /\
   let w' :=
     (check_for_new_transfers seed_forward
        (with_token (snapshot "5" [("X", "Y")]) "5") first_run).2 in
   exists docs,
     write_log w' = (write_log first_run ++ docs)%list /\
     Forall (fun doc =>
               exists members,
                 doc = JObj members /\
                 dict_lookup "gameweek" members = Some (JInt 5)) docs /\
     (state_file w' = state_file first_run \/
      state_file w' = FileUnparseable \/
      exists members,
        state_file w' = FileDoc (JObj members) /\
        dict_lookup "gameweek" members = Some (JInt 5))) /\
  check_for_new_transfers seed_forward
    (with_token (snapshot "5" [("X", "Y")]) (zero_padded 4300 "5")) first_run
  = (Raised ValueError, first_run).
Proof.
  split.
  - apply (period_token_read_as_integer seed_forward (snapshot "5" [("X", "Y")])
             first_run "5" "٠٥" 1 2 5 numeral_5 numeral_arabic_05); lia.
  - apply (period_token_read_as_integer seed_forward (snapshot "5" [("X", "Y")])
             first_run (zero_padded 4300 "5") "5" 4301 1 5
             (numeral_zero_padded 4300 "5" 1 5 numeral_5) numeral_5);
      [lia | reflexivity].
Defined.

End Examples.

(** * Instances of the further properties *)

Section MoreExamples.

Lemma escape_markdown_guards_witness : exists pre', "a\" = pre' +:+ "\".
Proof.
  apply (escape_markdown_guards "a.b" "a\" "b" "."); [reflexivity|].
  apply char_in_reserved. reflexivity.
Defined.

Lemma escape_markdown_injective_witness : "x_y" = "x_y".
Proof. apply (escape_markdown_injective "x_y" "x_y"). reflexivity. Defined.

Lemma save_state_load_state_witness :
  exists w',
    save_state 5 [("X", "Y")] first_run = (Returned (), w') /\
    (state_file first_run <> FileUnreadable ->
     load_state w' = (Returned (state_doc 5 [("X", "Y")]), w')) /\
    (state_file first_run = FileUnreadable -> load_state w' = (Raised OSError, w')) /\
    (forall n, int_ne n (dict_get "gameweek" (state_doc 5 [("X", "Y")]) JNull) = false
               <-> n = 5) /\
    seen_set_of (dict_get "transfers" (state_doc 5 [("X", "Y")]) (JArr []))
    = Returned (list_to_set [("X", "Y")]).
Proof. apply (save_state_load_state 5 [("X", "Y")] first_run). reflexivity. Defined.

Lemma load_state_has_both_keys_witness :
  exists members saved_gameweek saved_transfers,
    baseline_doc 5 [("X", "Y")] = JObj members /\
    stored 5 [("X", "Y")] = stored 5 [("X", "Y")] /\
    dict_lookup "gameweek" members = Some saved_gameweek /\
    dict_lookup "transfers" members = Some saved_transfers /\
    forall d1 d2,
      dict_get "gameweek" (JObj members) d1 = saved_gameweek /\
      dict_get "transfers" (JObj members) d2 = saved_transfers.
Proof.
  apply (load_state_has_both_keys (stored 5 [("X", "Y")])). reflexivity.
Defined.

Lemma noteworthy_means_written_witness :
  exists gw,
    observed (snapshot "6" [("M", "N")]) gw /\
    scraped_transfers (snapshot "6" [("M", "N")]) <> [] /\
    store_writable (stored 5 [("X", "Y")]) = true /\
    written 6 [("M", "N")] (stored 5 [("X", "Y")])
    = written gw (scraped_transfers (snapshot "6" [("M", "N")])) (stored 5 [("X", "Y")]).
Proof.
  apply (noteworthy_means_written seed_forward (snapshot "6" [("M", "N")])
           (stored 5 [("X", "Y")]) (written 6 [("M", "N")] (stored 5 [("X", "Y")]))
           (format_outcome (PeriodRolledOver 6 [("M", "N")] None)) true);
    reflexivity.
Defined.

Lemma corrupted_transfers_block_witness :
  run_checks seed_forward growing_snapshots malformed_store
  = (replicate (length growing_snapshots) (Raised TypeError), malformed_store).
Proof.
  apply (corrupted_transfers_block seed_forward 5 malformed_store TypeError
           growing_snapshots);
    [reflexivity | reflexivity |].
  repeat constructor; apply observed_snapshot_5.
Defined.


Lemma report_silent_after_command_witness :
  let check := check_for_new_transfers seed_forward (snapshot "5" [("X", "Y")]) in
  let b1 := (check_command check 42 fresh_bot).2 in
  send_daily_report check 42 b1 = (Done, b1).
Proof.
  intros check b1.
  apply (report_silent_after_command seed_forward (snapshot "5" [("X", "Y")])
           42 42 fresh_bot b1).
  reflexivity.
Defined.

Lemma undelivered_update_is_lost_witness :
  let b := {| state_store := first_run; sent := []; job_queue := [];
              telegram_up := false |} in
  let w1 := written 5 [("X", "Y")] first_run in
  send_daily_report
    (check_for_new_transfers seed_forward (snapshot "5" [("X", "Y")])) 42 b
  = (Failed TelegramError, with_store w1 b) /\
  forall later : bot,
    state_store later = w1 ->
    send_daily_report
      (check_for_new_transfers seed_forward (snapshot "5" [("X", "Y")])) 42 later
    = (Done, later).
Proof.
  intros b w1.
  apply (undelivered_update_is_lost seed_forward (snapshot "5" [("X", "Y")]) 42 b
           (format_outcome (PeriodRolledOver 5 [("X", "Y")] None)) w1);
    reflexivity.
Defined.

Lemma start_only_admin_witness : Some "7" = Some (str_of_int 7).
Proof.
  apply (start_only_admin (Some "7") 7 42 fresh_bot). discriminate.
Defined.

Lemma start_schedules_one_job_witness :
  jobs_by_name (str_of_int 43) (start (Some (str_of_int 7)) 7 42 fresh_bot).2
  = jobs_by_name (str_of_int 43) fresh_bot.
Proof.
  apply (start_schedules_one_job 7 42 fresh_bot). discriminate.
Defined.

Lemma scraped_gameweek_is_a_number_witness :
  (exists section text pre post,
     reveal_page working_site = Response (Some section) /\
     gameweek_h3 section = Some text /\
     text = pre +:+ "Gameweek " +:+ "5" +:+ post) /\
  py_chars "5" <> [] /\
  Forall (fun char => is_decimal_char char = true) (py_chars "5") /\
  if 4300 <? Z.of_nat (length (py_chars "5"))
  then int_of_str "5" = None
  else exists n, 0 <= n /\ int_of_str "5" = Some n.
Proof.
  apply (scraped_gameweek_is_a_number strip_spaces (reveal_page working_site)
           [("X", "Y")] None "5").
  reflexivity.
Defined.

Lemma check_site_exceptions_witness :
  store FileUnparseable false DumpFails = failing_store 4 [] DumpFails \/
  (OSError = OSError /\ store_writable (failing_store 4 [] DumpFails) = false /\
   readable (failing_store 4 [] DumpFails) /\
   exists gw,
     store FileUnparseable false DumpFails
     = unwritten gw (page_pairs strip_spaces working_site)
         (failing_store 4 [] DumpFails) /\
     state_file (store FileUnparseable false DumpFails)
     = left_by_failed_write gw (page_pairs strip_spaces working_site)
         (failing_store 4 [] DumpFails) /\
     (failed_write (failing_store 4 [] DumpFails) = DumpFails ->
      load_state (store FileUnparseable false DumpFails)
      = (Returned empty_doc, store FileUnparseable false DumpFails))).
Proof.
  apply (check_site_exceptions seed_forward strip_spaces working_site
           (failing_store 4 [] DumpFails) (store FileUnparseable false DumpFails)
           OSError).
  reflexivity.
Defined.

Lemma page_without_gameweek_leaves_state_witness :
  check_site seed_forward strip_spaces site_without_page (stored 5 [("X", "Y")])
  = (answer ExtractionFailed, stored 5 [("X", "Y")]).
Proof.
  apply (page_without_gameweek_leaves_state seed_forward strip_spaces
           site_without_page (stored 5 [("X", "Y")])); [reflexivity | by left].
Defined.

Lemma scraped_transfers_spec_witness :
  let items := [TransferLi [Some " X "; Some "Y"];
                TransferLi [Some "Default Player"; Some "Z"]] in
  let section := {| gameweek_h3 := Some "Gameweek 5"; active_chip_li := None;
                    transfers_ul := Some items |} in
  let scraped :=
    (scrape_target_transfers strip_spaces (Response (Some section))).1.1 in
  (("X", "Y") ∈ scraped <->
   exists out_text in_text,
     TransferLi [Some out_text; Some in_text] ∈ items /\
     "X" = strip_spaces out_text /\ "Y" = strip_spaces in_text /\
     (~ exists pre post, "X" = pre +:+ "Default Player" +:+ post) /\
     (~ exists pre post, "Y" = pre +:+ "Default Player" +:+ post)) /\
  (length scraped <= length items)%nat.
Proof.
  intros items section.
  apply (scraped_transfers_spec strip_spaces section items "X" "Y"). reflexivity.
Defined.

Lemma login_succeeds_iff_witness :
  logged_in working_site /\
  (~ logged_in site_down /\ forall e, ~ login_escapes site_down e).
Proof.
  split.
  - apply (proj1 (proj1 (login_succeeds_iff working_site))). reflexivity.
  - apply (proj1 (proj2 (login_succeeds_iff site_down))). reflexivity.
Defined.


End MoreExamples.
